(** * Market sizer: a shallow embedding of [app.py] and its verified properties

    The program fetches headlines from a news feed, scrapes each article,
    asks a language model for two market metrics (TAM and CAGR), falls back
    to two regular expressions over the headline, and finally asks the model
    for advice, with a fixed template as a last resort.

    Conventions of the embedding.
    - A Python [str] is a list of Unicode code points ([pystr := list N]);
      [u "text"] writes an ASCII literal.
    - Library calls whose result depends on the outside world (HTTP
      requests, the article extractor, the two inference services) are
      read from a [World] record; the same request gets the same answer
      for the duration of one run.
    - A Python statement that may raise evaluates to a [result]; a block
      that may also [return] early evaluates to a [flow].
    - Only exceptions derived from [Exception] are modelled; asynchronous
      signals such as [KeyboardInterrupt] are not. [print] and the
      Streamlit rendering calls have no effect on any value and are left
      out.
    - A column of the DataFrame is the list of its cells, each cell the
      Python value the program put there; the conversion of a whole column
      to a numeric dtype that pandas may perform is not modelled. *)

From Stdlib Require Import List NArith ZArith Bool Ascii Lia.
From Stdlib Require String.
Set Warnings "-register-all".
Import ListNotations String.StringSyntax.
Delimit Scope string_scope with string.

(* ================================================================= *)
(** ** Python strings *)

Module PyStr.

Definition pystr := list N.

Definition ch (a : ascii) : N := N_of_ascii a.
Arguments ch a%_char.

Definition u (s : String.string) : pystr :=
  map N_of_ascii (String.list_ascii_of_string s).
Arguments u s%_string.

(** The double quote, which a literal cannot hold. *)
Definition dquote : N := 34.

Definition in_ranges (table : list (N * N)) (c : N) : bool :=
  existsb (fun r => (fst r <=? c)%N && (c <=? snd r)%N) table.

(** [Py_UNICODE_ISSPACE]: the characters [str.strip], [str.isspace] and the
    regex class [\s] agree on. *)
Definition whitespace_table : list (N * N) :=
  [ (9, 13); (28, 32); (133, 133); (160, 160); (5760, 5760); (8192, 8202);
    (8232, 8233); (8239, 8239); (8287, 8287); (12288, 12288) ]%N.

(** [Py_UNICODE_ISDECIMAL] (general category Nd, Unicode 14): the regex
    class [\d] on [str] patterns. *)
Definition decimal_table : list (N * N) :=
  [ (48, 57); (1632, 1641); (1776, 1785); (1984, 1993); (2406, 2415);
    (2534, 2543); (2662, 2671); (2790, 2799); (2918, 2927); (3046, 3055);
    (3174, 3183); (3302, 3311); (3430, 3439); (3558, 3567); (3664, 3673);
    (3792, 3801); (3872, 3881); (4160, 4169); (4240, 4249); (6112, 6121);
    (6160, 6169); (6470, 6479); (6608, 6617); (6784, 6793); (6800, 6809);
    (6992, 7001); (7088, 7097); (7232, 7241); (7248, 7257); (42528, 42537);
    (43216, 43225); (43264, 43273); (43472, 43481); (43504, 43513);
    (43600, 43609); (44016, 44025); (65296, 65305); (66720, 66729);
    (68912, 68921); (69734, 69743); (69872, 69881); (69942, 69951);
    (70096, 70105); (70384, 70393); (70736, 70745); (70864, 70873);
    (71248, 71257); (71360, 71369); (71472, 71481); (71904, 71913);
    (72016, 72025); (72784, 72793); (73040, 73049); (73120, 73129);
    (92768, 92777); (92864, 92873); (93008, 93017); (120782, 120831);
    (123200, 123209); (123632, 123641); (125264, 125273);
    (130032, 130041) ]%N.

Definition isspace (c : N) : bool := in_ranges whitespace_table c.
Definition isdecimal (c : N) : bool := in_ranges decimal_table c.

Fixpoint lstrip (s : pystr) : pystr :=
  match s with
  | c :: s' => if isspace c then lstrip s' else s
  | [] => []
  end.

Definition rstrip (s : pystr) : pystr := rev (lstrip (rev s)).

(** [s.strip()] *)
Definition strip (s : pystr) : pystr := rstrip (lstrip s).

(** [sep.join(parts)] on strings. *)
Fixpoint join (sep : pystr) (parts : list pystr) : pystr :=
  match parts with
  | [] => []
  | [p] => p
  | p :: rest => p ++ sep ++ join sep rest
  end.

(** [s[start:stop]] for [0 <= start <= stop]. *)
Definition slice (s : pystr) (start stop : nat) : pystr :=
  firstn (stop - start) (skipn start s).

(** Truth value of a string: [bool(s)]. *)
Definition nonempty (s : pystr) : bool :=
  match s with [] => false | _ :: _ => true end.

(** [a or b] on strings. *)
Definition str_or (a b : pystr) : pystr := if nonempty a then a else b.

End PyStr.
Import PyStr.

(* ================================================================= *)
(** ** The fragment of [re] the program uses *)

Module Regex.

(** Members of a bracket set. *)
Inductive item :=
| IChr (c : N)
| IDigit          (* \d *)
| ISpace.         (* \s *)

(** One-character matchers. *)
Inductive atom :=
| Chr (c : N)
| Set_ (items : list item).

(** Repetition is only ever applied to a one-character matcher in the two
    patterns of the program, so [Star] and [Plus] take an [atom]. All
    repetitions and [Opt] are greedy. *)
Inductive regex :=
| Atom (a : atom)
| Cat (r1 r2 : regex)
| Alt (r1 r2 : regex)
| Opt (r : regex)
| Star (a : atom)
| Plus (a : atom)
| Group (r : regex).

Record flags := { ignorecase : bool }.

(** The subject characters an ASCII pattern literal matches under
    [re.IGNORECASE]: both cases of a letter, plus the extra characters [re]
    folds onto [i], [s] and [k]. *)
Definition case_variants (c : N) : list N :=
  let c := if ((65 <=? c) && (c <=? 90))%N then (c + 32)%N else c in
  if ((97 <=? c) && (c <=? 122))%N then
    [c; (c - 32)%N] ++
    (if (c =? 105)%N then [304; 305]
     else if (c =? 115)%N then [383]
     else if (c =? 107)%N then [8490]
     else [])%N
  else [c].

Definition chr_ok (fl : flags) (p c : N) : bool :=
  if ignorecase fl then existsb (N.eqb c) (case_variants p) else (c =? p)%N.

Definition item_ok (fl : flags) (i : item) (c : N) : bool :=
  match i with
  | IChr p => chr_ok fl p c
  | IDigit => isdecimal c
  | ISpace => isspace c
  end.

Definition atom_ok (fl : flags) (a : atom) (c : N) : bool :=
  match a with
  | Chr p => chr_ok fl p c
  | Set_ items => existsb (fun i => item_ok fl i c) items
  end.

(** Greedy repetition of a one-character matcher with backtracking: take
    as many characters as possible, then give them back one at a time until
    the rest of the pattern (the continuation [k]) succeeds. *)
Fixpoint greedy (fl : flags) (a : atom) (s : pystr)
    (k : pystr -> option pystr) : option pystr :=
  match s with
  | c :: s' =>
      if atom_ok fl a c then
        match greedy fl a s' k with
        | Some e => Some e
        | None => k s
        end
      else k s
  | [] => k []
  end.

(** The backtracking matcher. [run fl r s k] matches [r] at the head of [s]
    and hands what is left to [k]; alternatives are tried in priority order
    and the first overall success wins. The result is the unconsumed rest of
    the subject. *)
Fixpoint run (fl : flags) (r : regex) (s : pystr)
    (k : pystr -> option pystr) {struct r} : option pystr :=
  match r with
  | Atom a =>
      match s with
      | c :: s' => if atom_ok fl a c then k s' else None
      | [] => None
      end
  | Cat r1 r2 => run fl r1 s (fun s' => run fl r2 s' k)
  | Alt r1 r2 =>
      match run fl r1 s k with
      | Some e => Some e
      | None => run fl r2 s k
      end
  | Opt r1 =>
      match run fl r1 s k with
      | Some e => Some e
      | None => k s
      end
  | Star a => greedy fl a s k
  | Plus a =>
      match s with
      | c :: s' => if atom_ok fl a c then greedy fl a s' k else None
      | [] => None
      end
  | Group r1 => run fl r1 s k
  end.

(** [match_at fl r s]: the length of the match of [r] at the head of [s]. *)
Definition match_at (fl : flags) (r : regex) (s : pystr) : option nat :=
  match run fl r s (fun e => Some e) with
  | Some e => Some (length s - length e)
  | None => None
  end.

(** [re.search]: try every start position from the left; the span
    [(start, stop)] of the first position that matches. *)
Fixpoint search_from (fl : flags) (r : regex) (s : pystr) (pos : nat)
    : option (nat * nat) :=
  match match_at fl r s with
  | Some n => Some (pos, pos + n)
  | None =>
      match s with
      | [] => None
      | _ :: s' => search_from fl r s' (S pos)
      end
  end.

Definition search (fl : flags) (r : regex) (s : pystr) : option (nat * nat) :=
  search_from fl r s 0.

(** [m.group(0)] *)
Definition group0 (s : pystr) (m : nat * nat) : pystr :=
  slice s (fst m) (snd m).

(** The pattern for a literal word. *)
Fixpoint word (w : pystr) : regex :=
  match w with
  | [] => Opt (Atom (Set_ []))     (* never used on the empty word *)
  | [c] => Atom (Chr c)
  | c :: w' => Cat (Atom (Chr c)) (word w')
  end.

(** *** Declarative meaning of a pattern *)

Inductive matches (fl : flags) : regex -> pystr -> Prop :=
| MAtom a c : atom_ok fl a c = true -> matches fl (Atom a) [c]
| MCat r1 r2 m1 m2 :
    matches fl r1 m1 -> matches fl r2 m2 -> matches fl (Cat r1 r2) (m1 ++ m2)
| MAltL r1 r2 m : matches fl r1 m -> matches fl (Alt r1 r2) m
| MAltR r1 r2 m : matches fl r2 m -> matches fl (Alt r1 r2) m
| MOptNone r : matches fl (Opt r) []
| MOptSome r m : matches fl r m -> matches fl (Opt r) m
| MStar a m : forallb (atom_ok fl a) m = true -> matches fl (Star a) m
| MPlus a c m :
    atom_ok fl a c = true -> forallb (atom_ok fl a) m = true ->
    matches fl (Plus a) (c :: m)
| MGroup r m : matches fl r m -> matches fl (Group r) m.

(** *** Occurrences of a pattern in a subject *)

(** [m] is an occurrence of the pattern in [title], after the prefix [pre]. *)
Definition occurrence (fl : flags) (r : regex) (title pre m post : pystr)
    : Prop :=
  title = pre ++ m ++ post /\ matches fl r m.

(** No occurrence of the pattern starts before position [n] of [title]. *)
Definition none_before (fl : flags) (r : regex) (title : pystr) (n : nat)
    : Prop :=
  forall pre m post, occurrence fl r title pre m post -> n <= length pre.

(** The pattern has at most one match at any position, and the
    backtracking matcher finds it. *)
Definition forced (fl : flags) (r : regex) : Prop :=
  forall m rest, matches fl r m ->
    run fl r (m ++ rest) (fun e => Some e) = Some rest.

(** What [re.search] followed by [group(0)] returns, or the empty string
    when there is no match. *)
Definition found (fl : flags) (r : regex) (title : pystr) : pystr :=
  match search fl r title with
  | Some m => group0 title m
  | None => []
  end.

(** The rest of the subject does not begin with a character [a] accepts. *)
Definition stops (fl : flags) (a : atom) (rest : pystr) : Prop :=
  match rest with
  | [] => True
  | c :: _ => atom_ok fl a c = false
  end.

(** A literal word matches exactly the strings that agree with it
    character by character. *)
Definition spells (fl : flags) (w m : pystr) : Prop :=
  Forall2 (fun p c => chr_ok fl p c = true) w m.

(** Two range tables have no character in common. *)
Definition ranges_apart (t1 t2 : list (N * N)) : bool :=
  forallb (fun r1 =>
    forallb (fun r2 => (snd r1 <? fst r2)%N || (snd r2 <? fst r1)%N) t2) t1.

End Regex.
Import Regex.

(* ================================================================= *)
(** ** Python values and [json.loads] *)

Module Json.

(** A float is kept as the decimal it was read from: [FNum neg d e] is
    [(-1)^neg * d * 10^e] rounded to binary64. *)
Inductive pyfloat :=
| FNum (neg : bool) (digits : N) (exp10 : Z)
| FInf (neg : bool)
| FNaN.

(** The values [json.loads] produces. A dict is its list of items in
    insertion order, with distinct keys. *)
Inductive pyval :=
| PNone
| PBool (b : bool)
| PInt (z : Z)
| PFloat (f : pyfloat)
| PStr (s : pystr)
| PList (l : list pyval)
| PDict (d : list (pystr * pyval)).

(** A decimal reads as the float zero when it is zero or at most half the
    smallest subnormal, [2^-1075] (ties go to the even neighbour, zero). *)
Definition reads_as_zero (d : N) (e : Z) : bool :=
  (d =? 0)%N || ((e <? 0)%Z && (Z.of_N d * 2 ^ 1075 <=? 10 ^ (- e))%Z).

(** [bool(v)] *)
Definition truthy (v : pyval) : bool :=
  match v with
  | PNone => false
  | PBool b => b
  | PInt z => negb (z =? 0)%Z
  | PFloat (FNum _ d e) => negb (reads_as_zero d e)
  | PFloat _ => true
  | PStr s => nonempty s
  | PList l => match l with [] => false | _ => true end
  | PDict d => match d with [] => false | _ => true end
  end.

Fixpoint str_eqb (a b : pystr) : bool :=
  match a, b with
  | [], [] => true
  | x :: a', y :: b' => (x =? y)%N && str_eqb a' b'
  | _, _ => false
  end.

(** [d[k] = v] *)
Fixpoint dict_set (d : list (pystr * pyval)) (k : pystr) (v : pyval)
    : list (pystr * pyval) :=
  match d with
  | [] => [(k, v)]
  | (k', v') :: d' =>
      if str_eqb k' k then (k', v) :: d' else (k', v') :: dict_set d' k v
  end.

(** [d.get(k, default)] *)
Fixpoint dict_get (d : list (pystr * pyval)) (k : pystr) (default : pyval)
    : pyval :=
  match d with
  | [] => default
  | (k', v') :: d' => if str_eqb k' k then v' else dict_get d' k default
  end.

(** *** The decoder

    The decoder follows CPython's scanner: [Invalid] stands for any
    exception [json.loads] raises. [Exhausted] is the model's own fuel
    running out; [scan_once_total] shows that it never happens for the fuel
    [json_loads] supplies. Limits of the interpreter that depend on its
    state (the recursion limit) are not modelled. *)

Inductive parse (A : Type) :=
| Parsed (a : A) (rest : pystr)
| Invalid
| Exhausted.
Arguments Parsed {A} a rest.
Arguments Invalid {A}.
Arguments Exhausted {A}.

(** JSON whitespace: space, tab, line feed, carriage return. *)
Definition json_ws (c : N) : bool :=
  ((c =? 32) || (c =? 9) || (c =? 10) || (c =? 13))%N.

Fixpoint skip_ws (s : pystr) : pystr :=
  match s with
  | c :: s' => if json_ws c then skip_ws s' else s
  | [] => []
  end.

Fixpoint strip_prefix (p s : pystr) : option pystr :=
  match p, s with
  | [], _ => Some s
  | x :: p', y :: s' => if (x =? y)%N then strip_prefix p' s' else None
  | _ :: _, [] => None
  end.

Definition hex_digit (c : N) : option N :=
  if ((48 <=? c) && (c <=? 57))%N then Some (c - 48)%N
  else if ((97 <=? c) && (c <=? 102))%N then Some (c - 87)%N
  else if ((65 <=? c) && (c <=? 70))%N then Some (c - 55)%N
  else None.

Definition hex4 (a b c d : N) : option N :=
  match hex_digit a, hex_digit b, hex_digit c, hex_digit d with
  | Some x, Some y, Some z, Some w =>
      Some (((x * 16 + y) * 16 + z) * 16 + w)%N
  | _, _, _, _ => None
  end.

Definition high_surrogate (c : N) : bool := ((55296 <=? c) && (c <=? 56319))%N.
Definition low_surrogate (c : N) : bool := ((56320 <=? c) && (c <=? 57343))%N.
Definition join_surrogates (hi lo : N) : N :=
  (65536 + (hi - 55296) * 1024 + (lo - 56320))%N.

(** The character a one-letter escape stands for. *)
Definition backslash (e : N) : option N :=
  if (e =? 34)%N then Some 34%N            (* quote *)
  else if (e =? 92)%N then Some 92%N       (* backslash *)
  else if (e =? 47)%N then Some 47%N       (* slash *)
  else if (e =? 98)%N then Some 8%N        (* b *)
  else if (e =? 102)%N then Some 12%N      (* f *)
  else if (e =? 110)%N then Some 10%N      (* n *)
  else if (e =? 114)%N then Some 13%N      (* r *)
  else if (e =? 116)%N then Some 9%N       (* t *)
  else None.

Definition cons_char (c : N) (r : option (pystr * pystr))
    : option (pystr * pystr) :=
  match r with
  | Some (str, rest) => Some (c :: str, rest)
  | None => None
  end.

(** [scanstring], strict mode, started after the opening quote: the decoded
    string and what follows the closing quote. *)
Fixpoint scanstring (s : pystr) : option (pystr * pystr) :=
  match s with
  | [] => None
  | c :: t =>
      if (c =? 34)%N then Some ([], t)
      else if (c =? 92)%N then
        match t with
        | [] => None
        | e :: t1 =>
            if (e =? 117)%N then
              match t1 with
              | h1 :: h2 :: h3 :: h4 :: t2 =>
                  match hex4 h1 h2 h3 h4 with
                  | None => None
                  | Some uni =>
                      if high_surrogate uni then
                        match t2 with
                        | 92%N :: 117%N :: g1 :: g2 :: g3 :: g4 :: t3 =>
                            match hex4 g1 g2 g3 g4 with
                            | None => None
                            | Some uni2 =>
                                if low_surrogate uni2
                                then cons_char (join_surrogates uni uni2)
                                               (scanstring t3)
                                else cons_char uni (scanstring t2)
                            end
                        | _ => cons_char uni (scanstring t2)
                        end
                      else cons_char uni (scanstring t2)
                  end
              | _ => None
              end
            else
              match backslash e with
              | Some x => cons_char x (scanstring t1)
              | None => None
              end
        end
      else if (c <=? 31)%N then None
      else cons_char c (scanstring t)
  end.

Definition is_digit09 (c : N) : bool := ((48 <=? c) && (c <=? 57))%N.

Fixpoint span_digits (s : pystr) : pystr * pystr :=
  match s with
  | c :: t =>
      if is_digit09 c
      then let (d, r) := span_digits t in (c :: d, r)
      else ([], s)
  | [] => ([], [])
  end.

Definition digits_value (ds : pystr) : N :=
  fold_left (fun acc c => (acc * 10 + (c - 48))%N) ds 0%N.

(** [sys.get_int_max_str_digits()]: a longer integer literal makes [int]
    raise [ValueError]. *)
Definition int_max_str_digits : nat := 4300.

(** The integer part of a number: [0] or a non-zero digit and more digits. *)
Definition int_part (s : pystr) : option (pystr * pystr) :=
  match s with
  | c :: t =>
      if (c =? 48)%N then Some ([c], t)
      else if is_digit09 c then let (d, r) := span_digits t in Some (c :: d, r)
      else None
  | [] => None
  end.

(** The optional fraction: a period and at least one digit. *)
Definition frac_part (s : pystr) : pystr * pystr :=
  match s with
  | c :: t =>
      if (c =? 46)%N then
        match span_digits t with
        | ([], _) => ([], s)
        | (d, r) => (d, r)
        end
      else ([], s)
  | [] => ([], s)
  end.

(** An optional minus sign. *)
Definition minus_sign (s : pystr) : bool * pystr :=
  match s with
  | c :: t => if (c =? 45)%N then (true, t) else (false, s)
  | [] => (false, s)
  end.

(** An optional minus or plus sign. *)
Definition exp_sign (s : pystr) : bool * pystr :=
  match s with
  | c :: t =>
      if (c =? 45)%N then (true, t)
      else if (c =? 43)%N then (false, t)
      else (false, s)
  | [] => (false, s)
  end.

(** The optional exponent: [e] or [E], an optional sign, at least one digit. *)
Definition exp_part (s : pystr) : option Z * pystr :=
  match s with
  | c :: t =>
      if ((c =? 101) || (c =? 69))%N then
        let (neg, t1) := exp_sign t in
        match span_digits t1 with
        | ([], _) => (None, s)
        | (d, r) =>
            let v := Z.of_N (digits_value d) in
            (Some (if neg then (- v)%Z else v), r)
        end
      else (None, s)
  | [] => (None, s)
  end.

(** [match_number]: [None] when no number starts here. *)
Definition match_number (s : pystr) : option (parse pyval) :=
  let (neg, s0) := minus_sign s in
  match int_part s0 with
  | None => None
  | Some (int, s1) =>
      let (frac, s2) := frac_part s1 in
      let (exp, s3) := exp_part s2 in
      match frac, exp with
      | [], None =>
          if (int_max_str_digits <? length int)%nat then Some Invalid
          else
            let v := Z.of_N (digits_value int) in
            Some (Parsed (PInt (if neg then (- v)%Z else v)) s3)
      | _, _ =>
          let e := match exp with Some e => e | None => 0%Z end in
          Some (Parsed
                  (PFloat (FNum neg (digits_value (int ++ frac))
                                (e - Z.of_nat (length frac))))
                  s3)
      end
  end.

(** The constants, tried in the scanner's order once strings, containers
    and numbers are ruled out. *)
Definition scan_constant (s : pystr) : parse pyval :=
  match strip_prefix (u "NaN") s with
  | Some r => Parsed (PFloat FNaN) r
  | None =>
  match strip_prefix (u "Infinity") s with
  | Some r => Parsed (PFloat (FInf false)) r
  | None =>
  match strip_prefix (u "-Infinity") s with
  | Some r => Parsed (PFloat (FInf true)) r
  | None => Invalid
  end end end.

Definition scan_atom (s : pystr) : parse pyval :=
  match strip_prefix (u "null") s with
  | Some r => Parsed PNone r
  | None =>
  match strip_prefix (u "true") s with
  | Some r => Parsed (PBool true) r
  | None =>
  match strip_prefix (u "false") s with
  | Some r => Parsed (PBool false) r
  | None =>
  match match_number s with
  | Some p => p
  | None => scan_constant s
  end end end end.

(** The rest of [s] after the character [c], when [s] begins with it. *)
Definition starts_with (c : N) (s : pystr) : option pystr :=
  match s with
  | x :: r => if (x =? c)%N then Some r else None
  | [] => None
  end.

(** The items of an array, [s] standing at the next value. *)
Fixpoint elements (scan : pystr -> parse pyval) (fuel : nat) (s : pystr)
    (acc : list pyval) : parse pyval :=
  match fuel with
  | O => Exhausted
  | S fuel' =>
      match scan s with
      | Parsed v r =>
          match starts_with 93 (skip_ws r) with                   (* ] *)
          | Some r' => Parsed (PList (rev (v :: acc))) r'
          | None =>
              match starts_with 44 (skip_ws r) with               (* , *)
              | Some r' => elements scan fuel' (skip_ws r') (v :: acc)
              | None => Invalid
              end
          end
      | Invalid => Invalid
      | Exhausted => Exhausted
      end
  end.

(** The members of an object, [s] standing where a key must open. *)
Fixpoint members (scan : pystr -> parse pyval) (fuel : nat) (s : pystr)
    (acc : list (pystr * pyval)) : parse pyval :=
  match fuel with
  | O => Exhausted
  | S fuel' =>
      match starts_with dquote s with
      | None => Invalid
      | Some t =>
          match scanstring t with
          | None => Invalid
          | Some (key, r1) =>
              match starts_with 58 (skip_ws r1) with              (* : *)
              | None => Invalid
              | Some r2 =>
                  match scan (skip_ws r2) with
                  | Parsed v r3 =>
                      match starts_with 125 (skip_ws r3) with     (* } *)
                      | Some r4 => Parsed (PDict (dict_set acc key v)) r4
                      | None =>
                          match starts_with 44 (skip_ws r3) with  (* , *)
                          | Some r4 =>
                              members scan fuel' (skip_ws r4)
                                      (dict_set acc key v)
                          | None => Invalid
                          end
                      end
                  | Invalid => Invalid
                  | Exhausted => Exhausted
                  end
              end
          end
      end
  end.

(** [scan_once]: one JSON value at the head of [s]. *)
Fixpoint scan_once (fuel : nat) (s : pystr) : parse pyval :=
  match fuel with
  | O => Exhausted
  | S fuel' =>
      match s with
      | [] => Invalid
      | c :: t =>
          if (c =? dquote)%N then
            match scanstring t with
            | Some (str, r) => Parsed (PStr str) r
            | None => Invalid
            end
          else if (c =? 123)%N then                               (* { *)
            match starts_with 125 (skip_ws t) with
            | Some r => Parsed (PDict []) r
            | None => members (scan_once fuel') fuel' (skip_ws t) []
            end
          else if (c =? 91)%N then                                (* [ *)
            match starts_with 93 (skip_ws t) with
            | Some r => Parsed (PList []) r
            | None => elements (scan_once fuel') fuel' (skip_ws t) []
            end
          else scan_atom s
      end
  end.

(** [json.loads(s)] on a [str]; [None] when it raises. *)
Definition json_loads (s : pystr) : option pyval :=
  match s with
  | 65279%N :: _ => None                        (* byte order mark *)
  | _ =>
      match scan_once (S (length s)) (skip_ws s) with
      | Parsed v rest =>
          match skip_ws rest with
          | [] => Some v
          | _ :: _ => None                      (* extra data *)
          end
      | _ => None
      end
  end.

End Json.
Import Json.

(* ================================================================= *)
(** ** Exceptions and control flow *)

Module Py.

Inductive exn :=
| HTTPError            (* requests: raise_for_status *)
| ConnectionError      (* requests: the transport failed *)
| Timeout
| MissingSchema        (* requests: the URL has no scheme *)
| ArticleException     (* newspaper *)
| ServiceError         (* an inference client failed *)
| JSONDecodeError
| AttributeError
| IndexError
| TypeError
| UnicodeEncodeError.

(** The evaluation of an expression: a value, or an exception on its way
    up. *)
Inductive result (A : Type) :=
| Ok (a : A)
| Raise (e : exn).
Arguments Ok {A} a.
Arguments Raise {A} e.

Definition bind {A B} (r : result A) (k : A -> result B) : result B :=
  match r with
  | Ok a => k a
  | Raise e => Raise e
  end.

Notation "x <- r ;; k" := (bind r (fun x => k))
  (at level 61, r at next level, right associativity).

Fixpoint mapM {A B} (f : A -> result B) (l : list A) : result (list B) :=
  match l with
  | [] => Ok []
  | a :: l' => b <- f a ;; bs <- mapM f l' ;; Ok (b :: bs)
  end.

(** The execution of a block inside a function body: it falls through to
    the next statement, returns from the function, or raises. *)
Inductive flow (A : Type) :=
| Next
| Return (a : A)
| Throw (e : exn).
Arguments Next {A}.
Arguments Return {A} a.
Arguments Throw {A} e.

(** Evaluate an expression inside a block. *)
Definition eval {A B} (r : result A) (k : A -> flow B) : flow B :=
  match r with
  | Ok a => k a
  | Raise e => Throw e
  end.

Notation "x <~ r ;; k" := (eval r (fun x => k))
  (at level 61, r at next level, right associativity).

(** [try: body] followed by [except: pass] or by [except Exception as e:]
    with a handler that only prints. *)
Definition try_except {A} (body : flow A) : flow A :=
  match body with
  | Throw _ => Next
  | other => other
  end.

(** A block followed by the rest of the function body. *)
Definition and_then {A} (block : flow A) (rest : result A) : result A :=
  match block with
  | Next => rest
  | Return a => Ok a
  | Throw e => Raise e
  end.

Notation "block ;;; rest" := (and_then block rest)
  (at level 62, right associativity).

Definition raises {A} (r : result A) : Prop :=
  match r with Raise _ => True | Ok _ => False end.

End Py.
Import Py.

(* ================================================================= *)
(** ** The program *)

Module App.

(** *** The outside world *)

(** A feed [<item>] as BeautifulSoup presents it: the text of its first
    [<title>] and [<link>] tags, when it has them. *)
Record FeedItem := {
  item_title : option pystr;
  item_link : option pystr
}.

(** An HTTP response, with what BeautifulSoup finds in its body: the
    [<item>] tags read as XML, the text of the [<p>] tags read as HTML. *)
Record Response := {
  status_code : Z;
  feed_items : list FeedItem;
  html_paragraphs : list pystr
}.

(** The raw response of the hosted-inference client. *)
Record HFResponse := {
  hf_status_code : Z;
  hf_text : pystr;
  hf_json : result pyval            (* res.json() *)
}.

Record World := {
  (** [requests.get(url, headers=..., timeout=10)] *)
  requests_get : pystr -> result Response;
  (** [newspaper.Article], or [None] when the import failed; applied to a
      URL it downloads, parses and gives [art.text]. *)
  Article : option (pystr -> result pystr);
  (** the two globals set up at start *)
  hf_available : bool;
  hf_api : option (pystr -> result HFResponse);
  (** [openai.api_key] *)
  openai_api_key : pystr;
  (** [openai.ChatCompletion.create(...)]: the [message.content] of each of
      its [choices] *)
  chat_completion : pystr -> result (list (option pystr))
}.

(** *** [fetch_news] *)

Record Headline := { title : pystr; link : pystr }.

Definition utf8 (c : N) : result (list N) :=
  if (c <? 128)%N then Ok [c]
  else if (c <? 2048)%N then Ok [192 + c / 64; 128 + c mod 64]%N
  else if (c <? 65536)%N then
    if ((55296 <=? c) && (c <=? 57343))%N then Raise UnicodeEncodeError
    else Ok [224 + c / 4096; 128 + (c / 64) mod 64; 128 + c mod 64]%N
  else if (c <? 1114112)%N then
    Ok [240 + c / 262144; 128 + (c / 4096) mod 64;
        128 + (c / 64) mod 64; 128 + c mod 64]%N
  else Raise UnicodeEncodeError.

Definition url_safe (b : N) : bool :=
  (((48 <=? b) && (b <=? 57)) || ((65 <=? b) && (b <=? 90)) ||
   ((97 <=? b) && (b <=? 122)) ||
   (b =? 95) || (b =? 46) || (b =? 45) || (b =? 126) || (b =? 47))%N.

Definition upper_hex (n : N) : N := (if n <? 10 then 48 + n else 55 + n)%N.

Definition quote_byte (b : N) : pystr :=
  if url_safe b then [b] else [37%N; upper_hex (b / 16); upper_hex (b mod 16)].

(** [urllib.parse.quote(s)] *)
Definition quote (s : pystr) : result pystr :=
  bytes <- mapM utf8 s ;;
  Ok (flat_map quote_byte (concat bytes)).

(** [r.raise_for_status()] *)
Definition raise_for_status (r : Response) : result unit :=
  if ((400 <=? status_code r) && (status_code r <? 600))%Z
  then Raise HTTPError else Ok tt.

(** [l[:stop]] *)
Definition slice_to {A} (l : list A) (stop : Z) : list A :=
  if (0 <=? stop)%Z then firstn (Z.to_nat stop) l
  else firstn (Z.to_nat (Z.of_nat (length l) + stop)) l.

Definition headline_of (it : FeedItem) : Headline :=
  {| title := match item_title it with Some t => t | None => [] end;
     link := match item_link it with Some l => l | None => [] end |}.

Definition rss_url (q : pystr) : pystr :=
  u "https://news.google.com/rss/search?q=" ++ q.

Definition fetch_news (w : World) (topic : pystr) (max_results : Z)
    : result (list Headline) :=
  q <- quote (topic ++ u " market size") ;;
  r <- requests_get w (rss_url q) ;;
  _ <- raise_for_status r ;;
  let items := slice_to (feed_items r) max_results in
  Ok (map headline_of items).

(** *** [extract_text] *)

Definition extract_text (w : World) (url : pystr) : result pystr :=
  match Article w with
  | Some art =>
      try_except (
        text <~ art url ;;
        if nonempty (strip text) then Return text else Next)
  | None => Next
  end ;;;
  r <- requests_get w url ;;
  Ok (join (u " ") (html_paragraphs r)).

(** *** [call_ai] *)

(** [payload.get(key, default)] on whatever [res.json()] gave. *)
Definition py_get (payload : pyval) (key : pystr) (default : pyval)
    : result pyval :=
  match payload with
  | PDict d => Ok (dict_get d key default)
  | _ => Raise AttributeError
  end.

(** [v.strip()] *)
Definition py_strip (v : pyval) : result pystr :=
  match v with
  | PStr s => Ok (strip s)
  | _ => Raise AttributeError
  end.

(** [choices[0].message.content.strip()] *)
Definition first_content (choices : list (option pystr)) : result pystr :=
  match choices with
  | [] => Raise IndexError
  | None :: _ => Raise AttributeError
  | Some content :: _ => Ok (strip content)
  end.

Definition call_ai (w : World) (prompt : pystr) : result pystr :=
  (* Try HF *)
  match hf_available w, hf_api w with
  | true, Some api =>
      try_except (
        res <~ api prompt ;;
        payload <~ hf_json res ;;
        generated <~ py_get payload (u "generated_text") (PStr []) ;;
        txt <~ py_strip generated ;;
        if nonempty txt then Return txt else Next)
  | _, _ => Next
  end ;;;
  (* Fallback to OpenAI *)
  (if nonempty (openai_api_key w) then
     try_except (
       oa <~ chat_completion w prompt ;;
       resp <~ first_content oa ;;
       if nonempty resp then Return resp else Next)
   else Next) ;;;
  (* Generic fallback *)
  Ok [].

(** *** [regex_metrics_from_title] *)

(** The sets [[\d,\.]], [\s] and [\d]. *)
Definition tam_number : atom := Set_ [IDigit; IChr (ch ","); IChr (ch ".")].
Definition space : atom := Set_ [ISpace].
Definition digit : atom := Set_ [IDigit].

(** [r"\$?[\d,\.]+\s*(billion|million)"], compiled with [re.IGNORECASE] *)
Definition tam_pattern : regex :=
  Cat (Opt (Atom (Chr (ch "$"))))
 (Cat (Plus tam_number)
 (Cat (Star space)
      (Group (Alt (word (u "billion")) (word (u "million")))))).

Definition tam_flags : flags := {| ignorecase := true |}.

(** [r"(\d+(?:\.\d+)?)%"] *)
Definition cagr_pattern : regex :=
  Cat (Group (Cat (Plus digit)
                  (Opt (Cat (Atom (Chr (ch "."))) (Plus digit)))))
      (Atom (Chr (ch "%"))).

Definition cagr_flags : flags := {| ignorecase := false |}.

Definition regex_metrics_from_title (title : pystr) : pystr * pystr :=
  let tam :=
    match search tam_flags tam_pattern title with
    | Some m => group0 title m
    | None => []
    end in
  let cagr :=
    match search cagr_flags cagr_pattern title with
    | Some m2 => group0 title m2
    | None => []
    end in
  (tam, cagr).

(** *** [parse_metrics] *)

Definition parse_metrics (js : pystr) : pyval * pyval :=
  match json_loads js with
  | Some (PDict d) =>
      (dict_get d (u "TAM") (PStr []), dict_get d (u "CAGR") (PStr []))
  | Some _ => (PStr [], PStr [])        (* no [get]: AttributeError, caught *)
  | None => (PStr [], PStr [])          (* [json.loads] raised, caught *)
  end.

(** *** The analysis, row by row *)

Definition nl : pystr := [10%N].

(** Step 3: the prompt of a row. *)
Definition metric_prompt (title snippet : pystr) : pystr :=
  u "Headline: " ++ title ++ nl ++ u "Snippet: " ++ snippet ++ nl ++ nl ++
  u "Extract the Total Addressable Market (TAM) and CAGR as JSON with keys 'TAM','CAGR'.".

(** Step 6: the regex fallback of a row whose two cells are both false. *)
Definition regex_fallback (title : pystr) (cells : pyval * pyval)
    : pyval * pyval :=
  let (tam, cagr) := cells in
  if negb (truthy tam) && negb (truthy cagr)
  then let (t, c) := regex_metrics_from_title title in (PStr t, PStr c)
  else (tam, cagr).

(** Steps 5 and 6 on one row: from the title and the raw answer of the model
    to the two metric cells. *)
Definition extract_metrics (title raw : pystr) : pyval * pyval :=
  regex_fallback title (parse_metrics raw).

(** *** The advice *)

(** [sep.join(cells)]: every cell must be a string. *)
Fixpoint strings_of (cells : list pyval) : result (list pystr) :=
  match cells with
  | [] => Ok []
  | PStr s :: rest => ss <- strings_of rest ;; Ok (s :: ss)
  | _ :: _ => Raise TypeError
  end.

Definition join_cells (sep : pystr) (cells : list pyval) : result pystr :=
  ss <- strings_of cells ;; Ok (join sep ss).

Definition context_of (rows : list (pystr * pystr)) : pystr :=
  join (nl ++ nl) (map (fun r => u "- " ++ fst r ++ u ": " ++ snd r) rows).

Definition advice_prompt (topic context tams cagrs : pystr) : pystr :=
  u "You are a senior business consultant advising on the '" ++ topic ++
  u "' market." ++ nl ++
  u "Using the context and metrics below, provide actionable strategic advice, including opportunities, risks, and next steps." ++ nl ++ nl ++
  u "Context:" ++ nl ++ context ++ nl ++ nl ++
  u "Metrics: TAM=" ++ str_or tams (u "N/A") ++
  u "; CAGR=" ++ str_or cagrs (u "N/A").

Definition metrics_template (tams cagrs : pystr) : pystr :=
  u "Based on the metrics, the market size is " ++ str_or tams (u "N/A") ++
  u " with growth rates of " ++ str_or cagrs (u "N/A") ++
  u ". This indicates a significant market opportunity. " ++
  u "Consider validating demand with customer interviews, assessing key competitors, " ++
  u "and planning a go-to-market strategy that addresses pain points and leverages growth trends.".

Definition no_metrics_template : pystr :=
  u "We couldn't extract clear market metrics. " ++
  u "Consider researching industry reports or public data to determine TAM and CAGR, " ++
  u "then revisit this tool for insights.".

(** Step 7. [rows] are the (title, snippet) pairs, [metrics] the (TAM, CAGR)
    cells of the same rows. *)
Definition advise (w : World) (topic : pystr) (rows : list (pystr * pystr))
    (metrics : list (pyval * pyval)) : result pystr :=
  let context := context_of rows in
  tam_text <- join_cells (u ", ") (filter truthy (map fst metrics)) ;;
  cagr_text <- join_cells (u ", ") (filter truthy (map snd metrics)) ;;
  advice_text <- call_ai w (advice_prompt topic context tam_text cagr_text) ;;
  if negb (nonempty advice_text) then
    let tams := filter truthy (map fst metrics) in
    let cagrs := filter truthy (map snd metrics) in
    match tams, cagrs with
    | [], [] => Ok no_metrics_template
    | _, _ =>
        t <- join_cells (u ", ") tams ;;
        c <- join_cells (u ", ") cagrs ;;
        Ok (metrics_template t c)
    end
  else Ok advice_text.

(** *** The run started by the button *)

Inductive outcome :=
| Stopped                                  (* "No news found for this topic." *)
| Done (table : list (pystr * (pyval * pyval))) (advice : pystr).

Definition analyze (w : World) (topic : pystr) : result outcome :=
  (* 1) Fetch news *)
  df <- fetch_news w topic 5 ;;
  match df with
  | [] => Ok Stopped
  | _ :: _ =>
      (* 2) Extract snippets *)
      snippets <- mapM (fun h => t <- extract_text w (link h) ;;
                                 Ok (firstn 1000 t)) df ;;
      let rows := combine (map title df) snippets in
      (* 3) Build prompts *)
      let prompts := map (fun r => metric_prompt (fst r) (snd r)) rows in
      (* 4) Call AI for metrics *)
      raws <- mapM (call_ai w) prompts ;;
      (* 5) Parse JSON and 6) Regex fallback *)
      let metrics :=
        map (fun r => extract_metrics (fst r) (snd r))
            (combine (map title df) raws) in
      (* 7) Business Advice *)
      advice_text <- advise w topic rows metrics ;;
      Ok (Done (combine (map title df) metrics) advice_text)
  end.

(** *** Start-up *)

(** What the start of the program finds on the machine. *)
Record Host := {
  (** [from newspaper import Article], [None] on [ImportError] *)
  import_newspaper : option (pystr -> result pystr);
  (** [InferenceApi(repo_id=HUGGINGFACE_MODEL, token=HF_TOKEN)] *)
  make_inference_api : result (pystr -> result HFResponse);
  host_get : pystr -> result Response;
  host_chat : pystr -> result (list (option pystr))
}.

(** The module-level set-up, before the page is drawn. *)
Definition startup (h : Host) : World :=
  {| requests_get := host_get h;
     Article := import_newspaper h;
     hf_available :=
       match make_inference_api h with Ok _ => true | Raise _ => false end;
     hf_api :=
       match make_inference_api h with Ok api => Some api | Raise _ => None end;
     openai_api_key := u "sk_your_openai_key_here";
     chat_completion := host_chat h |}.

End App.
Import App.

(* ================================================================= *)
(** ** Vocabulary of the properties *)

Module Spec.

(** The texts the TAM pattern stands for: an optional dollar sign, a
    non-empty run of digits, commas and periods, any number of blanks, and
    "billion" or "million" in any letter case. *)
Definition tam_text (m : pystr) : Prop :=
  exists dollar number blanks unit,
    m = dollar ++ number ++ blanks ++ unit /\
    (dollar = [] \/ dollar = [ch "$"]) /\
    number <> [] /\
    forallb (fun c => isdecimal c || (c =? ch ",")%N || (c =? ch ".")%N)
            number = true /\
    forallb isspace blanks = true /\
    (spells tam_flags (u "billion") unit \/
     spells tam_flags (u "million") unit).

(** The texts the CAGR pattern stands for: a non-empty run of digits,
    optionally a period and another non-empty run of digits, and a percent
    sign. *)
Definition cagr_text (m : pystr) : Prop :=
  exists int frac,
    m = int ++ frac ++ [ch "%"] /\
    int <> [] /\ forallb isdecimal int = true /\
    (frac = [] \/
     exists ds, frac = ch "." :: ds /\ ds <> [] /\ forallb isdecimal ds = true).

(** A scanner is sound on inputs shorter than [bound] when it does not run
    out of fuel on them and leaves strictly less than it was given. *)
Definition sound_below (scan : pystr -> parse pyval) (bound : nat) : Prop :=
  forall s, length s < bound ->
    scan s <> Exhausted /\
    forall v r, scan s = Parsed v r -> length r < length s.

(** Text between double quotes. *)
Definition quoted (s : pystr) : pystr := dquote :: s ++ [dquote].

(** The headline and the two answers used as running examples. *)
Definition widget_title : pystr :=
  u "Widget market to hit $5 billion by 2030, growing 8% annually".


(** A cell is empty when Python takes it for false; for a string that is
    the empty string. *)
Definition empty_cell (v : pyval) : bool := negb (truthy v).

Definition both_empty (cells : pyval * pyval) : bool :=
  empty_cell (fst cells) && empty_cell (snd cells).


(** The two cells the regex fallback writes. *)
Definition title_cells (title : pystr) : pyval * pyval :=
  (PStr (fst (regex_metrics_from_title title)),
   PStr (snd (regex_metrics_from_title title))).

(** The stripped text under 'generated_text' of a hosted-inference
    response, when its body is a JSON object and the entry a string. *)
Definition generated_text (res : HFResponse) : option pystr :=
  match hf_json res with
  | Ok (PDict d) =>
      match dict_get d (u "generated_text") (PStr []) with
      | PStr s => Some (strip s)
      | _ => None
      end
  | _ => None
  end.

Definition some_text (t : pystr) : option pystr :=
  if nonempty t then Some t else None.

(** Tier 1: the primary client, when it is configured and available, is
    called without error and generates some text. *)
Definition tier1 (w : World) (prompt : pystr) : option pystr :=
  if hf_available w then
    match hf_api w with
    | Some api =>
        match api prompt with
        | Ok res =>
            match generated_text res with
            | Some t => some_text t
            | None => None
            end
        | Raise _ => None
        end
    | None => None
    end
  else None.

(** Tier 2: the chat completion, when a key is configured, the call
    succeeds and its first choice has some content. *)
Definition tier2 (w : World) (prompt : pystr) : option pystr :=
  if nonempty (openai_api_key w) then
    match chat_completion w prompt with
    | Ok (Some content :: _) => some_text (strip content)
    | _ => None
    end
  else None.

(** Worlds used as examples. Nothing is reachable and nothing is
    configured in [silent]. *)
Definition silent : World :=
  {| requests_get := fun url =>
       match url with
       | [] => Raise MissingSchema
       | _ => Raise ConnectionError
       end;
     Article := Some (fun _ => Raise ArticleException);
     hf_available := false;
     hf_api := None;
     openai_api_key := [];
     chat_completion := fun _ => Raise ServiceError |}.

(** Every request is answered by the same response; no model is
    configured. *)
Definition answering (r : Response) : World :=
  {| requests_get := fun _ => Ok r;
     Article := None;
     hf_available := false;
     hf_api := None;
     openai_api_key := [];
     chat_completion := fun _ => Raise ServiceError |}.

(** As [answering], with a primary client that generates [text] for every
    prompt. *)
Definition generating (r : Response) (text : pystr) : World :=
  {| requests_get := fun _ => Ok r;
     Article := None;
     hf_available := true;
     hf_api := Some (fun _ =>
       Ok {| hf_status_code := 200;
             hf_text := text;
             hf_json := Ok (PDict [(u "generated_text", PStr text)]) |});
     openai_api_key := [];
     chat_completion := fun _ => Raise ServiceError |}.

(** The feed answers, with articles whose links cannot be fetched. *)
Definition dead_links (feed : Response) : World :=
  {| requests_get := fun url =>
       if str_eqb url (rss_url (u "Smartphones%20market%20size"))
       then Ok feed else Raise ConnectionError;
     Article := None;
     hf_available := false;
     hf_api := None;
     openai_api_key := [];
     chat_completion := fun _ => Raise ServiceError |}.

Definition item (t l : option pystr) : FeedItem :=
  {| item_title := t; item_link := l |}.

Definition eight_items : Response :=
  {| status_code := 200;
     feed_items :=
       [ item (Some (u "A")) (Some (u "http://a"));
         item None (Some (u "http://b"));
         item (Some (u "C")) None;
         item (Some (u "D")) (Some (u "http://d"));
         item None None;
         item (Some (u "F")) (Some (u "http://f"));
         item (Some (u "G")) (Some (u "http://g"));
         item (Some (u "H")) (Some (u "http://h")) ];
     html_paragraphs := [u "Phones sell."; u "A lot."] |}.

Definition one_item : Response :=
  {| status_code := 200;
     feed_items := [ item (Some (u "Phone market booms")) (Some (u "http://a")) ];
     html_paragraphs := [u "Phones sell."] |}.

(** The primary path yields nothing: the extractor is missing, raises, or
    gives blank text. *)
Definition primary_yields_nothing (w : World) (url : pystr) : Prop :=
  match Article w with
  | None => True
  | Some art =>
      match art url with
      | Raise _ => True
      | Ok text => strip text = []
      end
  end.

(** There is a response and its HTTP status indicates failure. *)
Definition status_indicates_failure (o : result Response) : Prop :=
  match o with
  | Raise _ => False
  | Ok r => (400 <= status_code r < 600)%Z
  end.

(** The feed request failed: it raised, or its response carries an error
    status. *)
Definition request_failed (o : result Response) : Prop :=
  match o with
  | Raise _ => True
  | Ok r => (400 <= status_code r < 600)%Z
  end.

(** The metric cells of rows whose TAM and CAGR are strings. *)
Definition string_cells (ms : list (pystr * pystr)) : list (pyval * pyval) :=
  map (fun m => (PStr (fst m), PStr (snd m))) ms.

(** The non-empty values of a column, joined by commas. *)
Definition joined (column : list pystr) : pystr :=
  join (u ", ") (filter nonempty column).

(** *** Vocabulary of the further properties *)

(** The string is a substring of the title. *)
Definition substring_of (m title : pystr) : Prop :=
  exists pre post, title = pre ++ m ++ post.

(** The pattern occurs nowhere in the title. *)
Definition no_occurrence (fl : flags) (r : regex) (title : pystr) : Prop :=
  forall pre m post, ~ occurrence fl r title pre m post.

(** The string does not begin with white space. *)
Definition starts_clean (s : pystr) : Prop :=
  match s with
  | [] => True
  | c :: _ => isspace c = false
  end.

(** Neither the first nor the last character is white space. *)
Definition trimmed (s : pystr) : Prop :=
  starts_clean s /\ starts_clean (rev s).

(** A code point [str.encode('utf-8')] rejects: a surrogate, or a number
    beyond the last code point. *)
Definition unencodable (c : N) : bool :=
  (((55296 <=? c) && (c <=? 57343)) || (1114112 <=? c))%N.

(** The cell is true for Python and is not a string: joining it raises. *)
Definition unjoinable (v : pyval) : bool :=
  truthy v && match v with PStr _ => false | _ => true end.

(** The lambda of step 2: the text of a link, cut at 1000 characters. *)
Definition snippet_of (w : World) (url : pystr) : result pystr :=
  t <- extract_text w url ;; Ok (firstn 1000 t).

(** Steps 2 to 6 for one headline: its snippet and its two metric cells. *)
Definition analyze_row (w : World) (h : Headline)
    : result (pystr * (pyval * pyval)) :=
  s <- snippet_of w (link h) ;;
  raw <- call_ai w (metric_prompt (title h) s) ;;
  Ok (s, extract_metrics (title h) raw).

(** A row whose cells make step 7 raise. *)
Definition unjoinable_row (cells : pyval * pyval) : bool :=
  unjoinable (fst cells) || unjoinable (snd cells).



(** The run after a non-empty feed, one headline after the other. *)
Definition analyze_rows (w : World) (topic : pystr) (df : list Headline)
    : result outcome :=
  rs <- mapM (analyze_row w) df ;;
  advice_text <- advise w topic (combine (map title df) (map fst rs))
                        (map snd rs) ;;
  Ok (Done (combine (map title df) (map snd rs)) advice_text).

End Spec.
Import Spec.

(* ================================================================= *)
(** ** Facts about the matcher *)

Module RegexFacts.

Lemma app_same_length (A : Type) (a b c d : list A) :
  a ++ b = c ++ d -> length a = length c -> a = c /\ b = d.
Proof.
  revert c; induction a as [|x a IH]; intros [|y c] E L; try discriminate.
  - auto.
  - simpl in *. injection E as -> E. injection L as L.
    destruct (IH _ E L) as [-> ->]. auto.
Qed.

Section Matcher.
Variable fl : flags.

Lemma greedy_sound a s k e :
  greedy fl a s k = Some e ->
  exists m rest, s = m ++ rest /\ forallb (atom_ok fl a) m = true /\ k rest = Some e.
Proof.
  revert e; induction s as [|c s IH]; intros e H; simpl in H.
  - exists [], []; auto.
  - destruct (atom_ok fl a c) eqn:Hc.
    + destruct (greedy fl a s k) as [e'|] eqn:Hg.
      * inversion H; subst e'. destruct (IH e eq_refl) as (m & rest & -> & Hm & Hk).
        exists (c :: m), rest; simpl; rewrite Hc, Hm; auto.
      * exists [], (c :: s); auto.
    + exists [], (c :: s); auto.
Qed.

Lemma greedy_max a m rest k e :
  forallb (atom_ok fl a) m = true -> stops fl a rest -> k rest = Some e ->
  greedy fl a (m ++ rest) k = Some e.
Proof.
  intros Hm Hstop Hk; induction m as [|c m IH]; simpl in *.
  - destruct rest as [|c rest]; simpl in *; [assumption|].
    now rewrite Hstop.
  - apply andb_true_iff in Hm as [Hc Hm]. now rewrite Hc, IH.
Qed.

(** Every success of the matcher is a match in the declarative sense. *)
Lemma run_sound r : forall s k e,
  run fl r s k = Some e ->
  exists m rest, s = m ++ rest /\ matches fl r m /\ k rest = Some e.
Proof.
  induction r as [a|r1 IH1 r2 IH2|r1 IH1 r2 IH2|r1 IH1|a|a|r1 IH1];
    intros s k e H; simpl in H.
  - destruct s as [|c s]; [discriminate|].
    destruct (atom_ok fl a c) eqn:Hc; [|discriminate].
    exists [c], s; repeat split; auto. now constructor.
  - apply IH1 in H as (m1 & rest1 & -> & Hm1 & H).
    apply IH2 in H as (m2 & rest2 & -> & Hm2 & H).
    exists (m1 ++ m2), rest2; rewrite <- app_assoc; repeat split; auto.
    now constructor.
  - destruct (run fl r1 s k) as [e'|] eqn:H1.
    + inversion H; subst e'.
      apply IH1 in H1 as (m & rest & -> & Hm & Hk).
      exists m, rest; repeat split; auto. now apply MAltL.
    + apply IH2 in H as (m & rest & -> & Hm & Hk).
      exists m, rest; repeat split; auto. now apply MAltR.
  - destruct (run fl r1 s k) as [e'|] eqn:H1.
    + inversion H; subst e'.
      apply IH1 in H1 as (m & rest & -> & Hm & Hk).
      exists m, rest; repeat split; auto. now apply MOptSome.
    + exists [], s; repeat split; auto. apply MOptNone.
  - apply greedy_sound in H as (m & rest & -> & Hm & Hk).
    exists m, rest; repeat split; auto. now constructor.
  - destruct s as [|c s]; [discriminate|].
    destruct (atom_ok fl a c) eqn:Hc; [|discriminate].
    apply greedy_sound in H as (m & rest & -> & Hm & Hk).
    exists (c :: m), rest; repeat split; auto. now constructor.
  - apply IH1 in H as (m & rest & -> & Hm & Hk).
    exists m, rest; repeat split; auto. now constructor.
Qed.

Lemma match_at_sound r s n :
  match_at fl r s = Some n ->
  exists m rest, s = m ++ rest /\ matches fl r m /\ n = length m.
Proof.
  unfold match_at. destruct (run fl r s _) as [e|] eqn:H; [|discriminate].
  intros [= <-]. apply run_sound in H as (m & rest & -> & Hm & [= ->]).
  exists m, e; repeat split; auto. rewrite length_app; lia.
Qed.

(** *** Rewriting rules for runs whose outcome is forced *)

Lemma run_plus_max a c m rest k e :
  atom_ok fl a c = true -> forallb (atom_ok fl a) m = true ->
  stops fl a rest -> k rest = Some e ->
  run fl (Plus a) (c :: m ++ rest) k = Some e.
Proof. intros Hc Hm Hs Hk; simpl. rewrite Hc. now apply greedy_max. Qed.

Lemma run_star_max a m rest k e :
  forallb (atom_ok fl a) m = true -> stops fl a rest -> k rest = Some e ->
  run fl (Star a) (m ++ rest) k = Some e.
Proof. intros; simpl. now apply greedy_max. Qed.

Lemma run_opt_take a c s k e :
  atom_ok fl a c = true -> k s = Some e ->
  run fl (Opt (Atom a)) (c :: s) k = Some e.
Proof. intros H Hk; simpl. now rewrite H, Hk. Qed.

Lemma run_opt_hit r s k e :
  run fl r s k = Some e -> run fl (Opt r) s k = Some e.
Proof. intros H; simpl. now rewrite H. Qed.

Lemma run_opt_skip a c s k :
  atom_ok fl a c = false ->
  run fl (Opt (Atom a)) (c :: s) k = k (c :: s).
Proof. intros H; simpl. now rewrite H. Qed.

Lemma matches_word w : w <> [] -> forall m,
  matches fl (word w) m -> spells fl w m.
Proof.
  induction w as [|p w IH]; [congruence|]; intros _ m H.
  destruct w as [|q w].
  - inversion H; subst. repeat constructor. assumption.
  - simpl in H. inversion H as [| ? ? m1 m2 H1 H2 | | | | | | |]; subst.
    inversion H1; subst. constructor; [assumption|].
    apply IH; [discriminate|assumption].
Qed.

Lemma run_word w : w <> [] -> forall m rest k,
  spells fl w m -> run fl (word w) (m ++ rest) k = k rest.
Proof.
  induction w as [|p w IH]; [congruence|]; intros _ m rest k H.
  inversion H as [|? c ? m' Hc Hrest]; subst.
  destruct w as [|q w].
  - inversion Hrest; subst. simpl. now rewrite Hc.
  - change (word (p :: q :: w)) with (Cat (Atom (Chr p)) (word (q :: w))).
    simpl run at 1. simpl app. rewrite Hc.
    apply IH; [discriminate|assumption].
Qed.

Lemma run_word_miss p w c s k :
  chr_ok fl p c = false -> run fl (word (p :: w)) (c :: s) k = None.
Proof. intros H; destruct w; simpl; now rewrite H. Qed.

End Matcher.

(** *** Searching *)

Section Search.
Variable fl : flags.
Variable r : regex.

Hypothesis Hforced : forced fl r.

Lemma match_at_forced m rest :
  matches fl r m -> match_at fl r (m ++ rest) = Some (length m).
Proof.
  intros H; unfold match_at. rewrite (Hforced m rest H).
  f_equal. rewrite length_app; lia.
Qed.

Lemma match_at_none s :
  match_at fl r s = None -> forall m rest, s = m ++ rest -> ~ matches fl r m.
Proof.
  intros H m rest -> Hm. rewrite (match_at_forced m rest Hm) in H. discriminate.
Qed.

Lemma forced_unique m1 rest1 m2 rest2 :
  matches fl r m1 -> matches fl r m2 -> m1 ++ rest1 = m2 ++ rest2 -> m1 = m2.
Proof.
  intros H1 H2 E.
  pose proof (Hforced m1 rest1 H1) as E1. pose proof (Hforced m2 rest2 H2) as E2.
  rewrite E, E2 in E1. injection E1 as ->.
  now apply app_inv_tail in E.
Qed.

Lemma search_from_none s : forall pos,
  search_from fl r s pos = None ->
  forall pre m post, ~ occurrence fl r s pre m post.
Proof.
  induction s as [|c s IH]; intros pos H pre m post [E Hm]; simpl in H.
  - destruct (match_at fl r []) eqn:H0; [discriminate|].
    destruct pre; [|discriminate]. simpl in E.
    eapply (match_at_none _ H0); eassumption.
  - destruct (match_at fl r (c :: s)) eqn:H0; [discriminate|].
    destruct pre as [|c' pre]; simpl in E.
    + eapply (match_at_none _ H0); eassumption.
    + injection E as _ E. exact (IH _ H pre m post (conj E Hm)).
Qed.

Lemma search_from_some s : forall pos a b,
  search_from fl r s pos = Some (a, b) ->
  exists pre m post,
    occurrence fl r s pre m post /\ none_before fl r s (length pre) /\
    a = pos + length pre /\ b = a + length m.
Proof.
  induction s as [|c s IH]; intros pos a b H; simpl in H.
  - destruct (match_at fl r []) as [n|] eqn:H0; [|discriminate].
    injection H as <- <-.
    apply match_at_sound in H0 as (m & rest & E & Hm & ->).
    exists [], m, rest. repeat split; auto; simpl; try lia.
    intros ? ? ? _; lia.
  - destruct (match_at fl r (c :: s)) as [n|] eqn:H0.
    + injection H as <- <-.
      apply match_at_sound in H0 as (m & rest & E & Hm & ->).
      exists [], m, rest. repeat split; auto; simpl; try lia.
      intros ? ? ? _; lia.
    + apply IH in H as (pre & m & post & [E Hm] & Hleft & -> & ->).
      exists (c :: pre), m, post. repeat split; simpl; auto; try lia.
      * now rewrite E.
      * intros pre' m' post' [E' Hm'].
        destruct pre' as [|c' pre']; simpl in E'.
        -- exfalso. eapply (match_at_none _ H0); eassumption.
        -- injection E' as _ E'. simpl.
           specialize (Hleft pre' m' post' (conj E' Hm')). lia.
Qed.

Lemma group0_occurrence pre m post :
  group0 (pre ++ m ++ post) (length pre, length pre + length m) = m.
Proof.
  unfold group0, slice; simpl.
  rewrite skipn_app, skipn_all, Nat.sub_diag; simpl.
  replace (length pre + length m - length pre) with (length m + 0) by lia.
  rewrite firstn_app_2; simpl. apply app_nil_r.
Qed.

(** If the pattern occurs at all, the result is its first occurrence, which
    is the only match at its position. *)
Lemma found_first title pre m post :
  occurrence fl r title pre m post ->
  exists pre0 m0 post0,
    occurrence fl r title pre0 m0 post0 /\
    none_before fl r title (length pre0) /\
    (forall pre' m' post',
        occurrence fl r title pre' m' post' -> length pre' = length pre0 -> m' = m0) /\
    found fl r title = m0.
Proof.
  intros Hocc. unfold found, search.
  destruct (search_from fl r title 0) as [[a b]|] eqn:Hs.
  - apply search_from_some in Hs as (pre0 & m0 & post0 & Ho & Hleft & -> & ->).
    exists pre0, m0, post0. repeat split; auto; try apply Ho.
    + intros pre' m' post' [E' Hm'] Hlen. destruct Ho as [E0 Hm0].
      destruct (app_same_length _ _ _ _ _ (eq_trans (eq_sym E') E0) Hlen) as [-> E''].
      exact (forced_unique _ _ _ _ Hm' Hm0 E'').
    + destruct Ho as [-> _]. apply group0_occurrence.
  - exfalso. exact (search_from_none _ _ Hs _ _ _ Hocc).
Qed.

Lemma search_none_before title a b :
  search fl r title = Some (a, b) -> none_before fl r title a.
Proof.
  intros H. apply search_from_some in H as (pre & m & post & _ & Hleft & -> & _).
  exact Hleft.
Qed.

(** In particular an occurrence that nothing precedes is returned as it is. *)
Lemma found_leftmost title pre m post :
  occurrence fl r title pre m post -> none_before fl r title (length pre) ->
  found fl r title = m.
Proof.
  intros Hocc Hleft.
  destruct (found_first _ _ _ _ Hocc) as (pre0 & m0 & post0 & Ho & Hleft0 & Huniq & ->).
  symmetry. apply (Huniq pre m post Hocc).
  pose proof (Hleft _ _ _ Ho). pose proof (Hleft0 _ _ _ Hocc). lia.
Qed.

End Search.
End RegexFacts.
Import RegexFacts.

(* ================================================================= *)
(** ** The two patterns are forced *)

Module PatternFacts.

Lemma in_ranges_inv table c :
  in_ranges table c = true ->
  exists lo hi, In (lo, hi) table /\ (lo <= c <= hi)%N.
Proof.
  unfold in_ranges; intros H. apply existsb_exists in H as ([lo hi] & Hin & H).
  apply andb_true_iff in H as [H1 H2]; simpl in *.
  exists lo, hi; split; [assumption|]. split; now apply N.leb_le.
Qed.

Lemma ranges_apart_sound t1 t2 c :
  ranges_apart t1 t2 = true -> in_ranges t1 c = true -> in_ranges t2 c = false.
Proof.
  intros Hd H1. destruct (in_ranges t2 c) eqn:H2; [exfalso|reflexivity].
  apply in_ranges_inv in H1 as (l1 & h1 & I1 & B1).
  apply in_ranges_inv in H2 as (l2 & h2 & I2 & B2).
  unfold ranges_apart in Hd. rewrite forallb_forall in Hd.
  specialize (Hd _ I1). rewrite forallb_forall in Hd. specialize (Hd _ I2).
  simpl in Hd. apply orb_true_iff in Hd as [Hd|Hd]; apply N.ltb_lt in Hd; lia.
Qed.

Lemma space_not_decimal c : isspace c = true -> isdecimal c = false.
Proof. apply ranges_apart_sound. vm_compute. reflexivity. Qed.

Lemma chr_ok_inv fl p c :
  chr_ok fl p c = true -> In c (p :: case_variants p).
Proof.
  unfold chr_ok. destruct (ignorecase fl); intros H.
  - right. apply existsb_exists in H as (x & Hin & Hx).
    apply N.eqb_eq in Hx. now subst.
  - left. apply N.eqb_eq in H. now subst.
Qed.

(** Decide a fact about a character that a literal matched, by listing the
    finitely many characters the literal accepts. *)
Ltac by_variants H :=
  apply chr_ok_inv in H; vm_compute in H;
  repeat (destruct H as [H|H]; [subst|]);
  try contradiction; try (vm_compute; reflexivity).

Lemma atom_space fl c : atom_ok fl space c = isspace c.
Proof. simpl. apply orb_false_r. Qed.

Lemma atom_digit fl c : atom_ok fl digit c = isdecimal c.
Proof. simpl. apply orb_false_r. Qed.

Lemma number_not_dollar c :
  atom_ok tam_flags tam_number c = true ->
  atom_ok tam_flags (Chr (ch "$")) c = false.
Proof.
  intros H. change (chr_ok tam_flags (ch "$") c = false).
  destruct (chr_ok tam_flags (ch "$") c) eqn:E; [|reflexivity].
  by_variants E; vm_compute in H; discriminate.
Qed.

Lemma space_not_number c :
  isspace c = true -> atom_ok tam_flags tam_number c = false.
Proof.
  intros H. cbn [atom_ok tam_number existsb item_ok].
  rewrite (space_not_decimal c H); simpl.
  destruct (chr_ok tam_flags 44 c) eqn:E1;
    [by_variants E1; vm_compute in H; discriminate|].
  destruct (chr_ok tam_flags 46 c) eqn:E2;
    [by_variants E2; vm_compute in H; discriminate|].
  reflexivity.
Qed.

(** The first letter of a unit word is neither part of a number nor blank. *)
Lemma unit_letter_stops p c :
  p = ch "b" \/ p = ch "m" ->
  chr_ok tam_flags p c = true ->
  atom_ok tam_flags tam_number c = false /\ isspace c = false.
Proof. intros [->| ->] H; by_variants H; split; vm_compute; reflexivity. Qed.

Lemma b_not_m c :
  chr_ok tam_flags (ch "m") c = true -> chr_ok tam_flags (ch "b") c = false.
Proof. intros H; by_variants H. Qed.

(** *** Inversion of the declarative semantics *)

Section Inversion.
Variable fl : flags.

Lemma matches_atom_inv a m :
  matches fl (Atom a) m -> exists c, m = [c] /\ atom_ok fl a c = true.
Proof. inversion 1; subst; eauto. Qed.

Lemma matches_cat_inv r1 r2 m :
  matches fl (Cat r1 r2) m ->
  exists m1 m2, m = m1 ++ m2 /\ matches fl r1 m1 /\ matches fl r2 m2.
Proof. inversion 1; subst; eauto. Qed.

Lemma matches_alt_inv r1 r2 m :
  matches fl (Alt r1 r2) m -> matches fl r1 m \/ matches fl r2 m.
Proof. inversion 1; subst; auto. Qed.

Lemma matches_opt_inv r m :
  matches fl (Opt r) m -> m = [] \/ matches fl r m.
Proof. inversion 1; subst; auto. Qed.

Lemma matches_star_inv a m :
  matches fl (Star a) m -> forallb (atom_ok fl a) m = true.
Proof. inversion 1; subst; auto. Qed.

Lemma matches_plus_inv a m :
  matches fl (Plus a) m ->
  exists c n, m = c :: n /\ atom_ok fl a c = true /\
              forallb (atom_ok fl a) n = true.
Proof. inversion 1; subst; eauto. Qed.

Lemma matches_group_inv r m : matches fl (Group r) m -> matches fl r m.
Proof. inversion 1; subst; auto. Qed.

End Inversion.

(** The shape of every match of the TAM pattern: an optional dollar sign, a
    non-empty run of digits, commas and periods, a run of blanks, and one of
    the two unit words in any letter case. *)
Lemma tam_match_shape m :
  matches tam_flags tam_pattern m ->
  exists dollar c n blanks unit w,
    m = dollar ++ (c :: n) ++ blanks ++ unit /\
    (dollar = [] \/ dollar = [ch "$"]) /\
    atom_ok tam_flags tam_number c = true /\
    forallb (atom_ok tam_flags tam_number) n = true /\
    forallb (atom_ok tam_flags space) blanks = true /\
    (w = u "billion" \/ w = u "million") /\
    spells tam_flags w unit.
Proof.
  intros H. unfold tam_pattern in H.
  apply matches_cat_inv in H as (dollar & m1 & -> & Hd & H).
  apply matches_cat_inv in H as (num & m2 & -> & Hn & H).
  apply matches_cat_inv in H as (blanks & unit & -> & Hb & H).
  apply matches_plus_inv in Hn as (c & n & -> & Hc & Hn).
  apply matches_star_inv in Hb.
  apply matches_group_inv, matches_alt_inv in H.
  assert (Hdollar : dollar = [] \/ dollar = [ch "$"]).
  { apply matches_opt_inv in Hd as [->|Hd]; [now left|right].
    apply matches_atom_inv in Hd as (x & -> & Hx).
    simpl in Hx. by_variants Hx. }
  destruct H as [H|H]; apply matches_word in H; try discriminate.
  - exists dollar, c, n, blanks, unit, (u "billion"). repeat split; auto.
  - exists dollar, c, n, blanks, unit, (u "million"). repeat split; auto.
Qed.

Lemma spells_head fl w m :
  spells fl w m -> w <> [] ->
  exists p w' c m', w = p :: w' /\ m = c :: m' /\ chr_ok fl p c = true.
Proof. intros H Hw; inversion H; subst; [congruence|eauto 8]. Qed.

Lemma run_cat fl r1 r2 s k :
  run fl (Cat r1 r2) s k = run fl r1 s (fun s' => run fl r2 s' k).
Proof. reflexivity. Qed.

Lemma run_units unit w rest :
  (w = u "billion" \/ w = u "million") -> spells tam_flags w unit ->
  run tam_flags (Group (Alt (word (u "billion")) (word (u "million"))))
      (unit ++ rest) (fun e => Some e) = Some rest.
Proof.
  intros [->| ->] Hsp; cbn [run].
  - rewrite run_word; [reflexivity|discriminate|assumption].
  - destruct (spells_head _ _ _ Hsp) as (p & w' & c & m' & Ew & -> & Hc);
      [discriminate|].
    injection Ew as <- <-.
    change (u "billion") with (ch "b" :: u "illion").
    rewrite <- app_comm_cons, run_word_miss by now apply b_not_m.
    rewrite app_comm_cons, run_word; [reflexivity|discriminate|assumption].
Qed.

Theorem tam_forced : forced tam_flags tam_pattern.
Proof.
  intros m rest H.
  destruct (tam_match_shape _ H)
    as (dollar & c & n & blanks & unit & w & -> & Hd & Hc & Hn & Hb & Hw & Hsp).
  destruct (spells_head _ _ _ Hsp) as (p & w' & x & unit' & Ew & Eu & Hx).
  { destruct Hw as [->| ->]; discriminate. }
  assert (Hp : p = ch "b" \/ p = ch "m").
  { destruct Hw as [->| ->]; injection Ew as <- _; auto. }
  destruct (unit_letter_stops p x Hp Hx) as [Hx1 Hx2].
  assert (Htail :
    run tam_flags
      (Cat (Plus tam_number)
        (Cat (Star space)
          (Group (Alt (word (u "billion")) (word (u "million"))))))
      ((c :: n) ++ (blanks ++ unit ++ rest)) (fun e => Some e) = Some rest).
  { rewrite run_cat. simpl app. apply run_plus_max; auto.
    - destruct blanks as [|b blanks]; simpl.
      + rewrite Eu; simpl. exact Hx1.
      + cbn [forallb] in Hb. apply andb_true_iff in Hb as [Hb _].
        rewrite atom_space in Hb. now apply space_not_number.
    - rewrite run_cat. apply run_star_max; auto.
      + rewrite Eu; simpl. rewrite orb_false_r. exact Hx2.
      + now apply run_units with (w := w). }
  unfold tam_pattern. fold tam_number. fold space.
  rewrite run_cat.
  replace ((dollar ++ (c :: n) ++ blanks ++ unit) ++ rest)
    with (dollar ++ (c :: n) ++ (blanks ++ unit ++ rest))
    by (now rewrite <- !app_assoc).
  destruct Hd as [->| ->].
  - rewrite app_nil_l, <- app_comm_cons, run_opt_skip.
    + exact Htail.
    + now apply number_not_dollar.
  - apply run_opt_take; [vm_compute; reflexivity|exact Htail].
Qed.

(** The shape of every match of the CAGR pattern: a non-empty run of
    digits, optionally a period and another non-empty run of digits, and a
    percent sign. *)
Lemma cagr_match_shape m :
  matches cagr_flags cagr_pattern m ->
  exists c n frac,
    m = (c :: n) ++ frac ++ [ch "%"] /\
    isdecimal c = true /\ forallb isdecimal n = true /\
    (frac = [] \/
     exists c2 n2, frac = ch "." :: c2 :: n2 /\
                   isdecimal c2 = true /\ forallb isdecimal n2 = true).
Proof.
  assert (Hall : forall l, forallb (atom_ok cagr_flags digit) l = true ->
                           forallb isdecimal l = true).
  { intros l H. rewrite forallb_forall in *. intros x Hx.
    rewrite <- (atom_digit cagr_flags). auto. }
  intros H. unfold cagr_pattern in H. fold digit in H.
  apply matches_cat_inv in H as (num & pc & -> & Hn & Hp).
  apply matches_group_inv, matches_cat_inv in Hn as (int & frac & -> & Hi & Hf).
  apply matches_plus_inv in Hi as (c & n & -> & Hc & Hn).
  apply matches_atom_inv in Hp as (x & -> & Hx).
  simpl in Hx. apply N.eqb_eq in Hx; subst x.
  rewrite atom_digit in Hc. apply Hall in Hn.
  exists c, n, frac. rewrite <- app_assoc. repeat split; auto.
  apply matches_opt_inv in Hf as [->|Hf]; [now left|right].
  apply matches_cat_inv in Hf as (dot & ds & -> & Hd & Hds).
  apply matches_atom_inv in Hd as (x & -> & Hx).
  simpl in Hx. apply N.eqb_eq in Hx; subst x.
  apply matches_plus_inv in Hds as (c2 & n2 & -> & Hc2 & Hn2).
  rewrite atom_digit in Hc2. apply Hall in Hn2.
  exists c2, n2; auto.
Qed.

Lemma digits_ok l :
  forallb isdecimal l = true -> forallb (atom_ok cagr_flags digit) l = true.
Proof.
  intros H. rewrite forallb_forall in *. intros x Hx.
  rewrite atom_digit. auto.
Qed.

Theorem cagr_forced : forced cagr_flags cagr_pattern.
Proof.
  intros m rest H.
  destruct (cagr_match_shape _ H) as (c & n & frac & -> & Hc & Hn & Hfrac).
  unfold cagr_pattern. fold digit.
  rewrite run_cat. cbn [run].
  set (k1 := fun s' : pystr =>
         match s' with
         | c0 :: s'0 =>
             if atom_ok cagr_flags (Chr (ch "%")) c0 then Some s'0 else None
         | [] => None
         end).
  assert (Hk1 : k1 (ch "%" :: rest) = Some rest) by reflexivity.
  replace (((c :: n) ++ frac ++ [ch "%"]) ++ rest)
    with (c :: n ++ (frac ++ ch "%" :: rest))
    by (simpl; now rewrite <- !app_assoc).
  rewrite atom_digit, Hc.
  apply greedy_max; [now apply digits_ok| |].
  - destruct Hfrac as [->|(c2 & n2 & -> & _)]; reflexivity.
  - destruct Hfrac as [->|(c2 & n2 & -> & Hc2 & Hn2)].
    + reflexivity.
    + cbn [app]. 
      replace (atom_ok cagr_flags (Chr (ch ".")) (ch ".")) with true
        by reflexivity.
      rewrite atom_digit, Hc2.
      rewrite greedy_max with (e := rest); auto.
      * now apply digits_ok.
      * reflexivity.
Qed.

(** *** The two patterns in words *)

Lemma word_matches fl w : w <> [] -> forall m,
  spells fl w m -> matches fl (word w) m.
Proof.
  induction w as [|p w IH]; [congruence|]; intros _ m H.
  inversion H as [|? c ? m' Hc Hrest]; subst.
  destruct w as [|q w].
  - inversion Hrest; subst. now constructor.
  - change (word (p :: q :: w)) with (Cat (Atom (Chr p)) (word (q :: w))).
    apply (MCat _ _ _ [c] m'); [now constructor|].
    apply IH; [discriminate|assumption].
Qed.

Lemma atom_number c :
  atom_ok tam_flags tam_number c =
  isdecimal c || (c =? ch ",")%N || (c =? ch ".")%N.
Proof.
  cbn [atom_ok tam_number existsb item_ok].
  change (chr_ok tam_flags (ch ",") c) with ((c =? ch ",")%N || false).
  change (chr_ok tam_flags (ch ".") c) with ((c =? ch ".")%N || false).
  now rewrite !orb_false_r, orb_assoc.
Qed.

Lemma forallb_ext_ok {A} (f g : A -> bool) l :
  (forall x, f x = g x) -> forallb f l = forallb g l.
Proof. intros H; induction l as [|x l IH]; simpl; [|rewrite H, IH]; reflexivity. Qed.

Lemma tam_text_of_match m : matches tam_flags tam_pattern m -> tam_text m.
Proof.
  intros H.
  destruct (tam_match_shape _ H)
    as (dollar & c & n & blanks & unit & w & -> & Hd & Hc & Hn & Hb & Hw & Hsp).
  exists dollar, (c :: n), blanks, unit. split; [reflexivity|].
  split; [exact Hd|]. split; [discriminate|]. split; [|split].
  - cbn [forallb]. rewrite <- atom_number, Hc.
    rewrite <- (forallb_ext_ok _ _ n atom_number). exact Hn.
  - rewrite <- (forallb_ext_ok _ _ blanks (atom_space tam_flags)). exact Hb.
  - destruct Hw as [->| ->]; auto.
Qed.

Lemma match_of_tam_text m : tam_text m -> matches tam_flags tam_pattern m.
Proof.
  intros (dollar & number & blanks & unit & -> & Hd & Hne & Hn & Hb & Hu).
  unfold tam_pattern.
  apply MCat.
  { destruct Hd as [->| ->]; [apply MOptNone|apply MOptSome].
    now constructor. }
  apply MCat.
  { destruct number as [|c n]; [congruence|]. cbn [forallb] in Hn.
    apply andb_true_iff in Hn as [Hc Hn].
    constructor; [now rewrite atom_number|].
    now rewrite (forallb_ext_ok _ _ n atom_number). }
  apply MCat.
  { constructor. now rewrite (forallb_ext_ok _ _ blanks (atom_space tam_flags)). }
  apply MGroup.
  destruct Hu as [Hu|Hu]; [apply MAltL|apply MAltR];
    (apply word_matches; [discriminate|assumption]).
Qed.

(** X3. The TAM pattern accepts exactly the texts made of an optional
    dollar sign, a non-empty run of digits, commas and periods, any number
    of blanks, and "billion" or "million" in any letter case. *)
Lemma tam_pattern_texts m :
  matches tam_flags tam_pattern m <-> tam_text m.
Proof. split; [apply tam_text_of_match|apply match_of_tam_text]. Qed.

Lemma tam_pattern_texts_witness : tam_text (u "1,200.5  MILLION").
Proof.
  apply (proj1 (tam_pattern_texts (u "1,200.5  MILLION"))).
  unfold tam_pattern.
  apply (MCat _ _ _ [] (u "1,200.5  MILLION")); [apply MOptNone|].
  apply (MCat _ _ _ (u "1,200.5") (u "  MILLION")); [now constructor|].
  apply (MCat _ _ _ (u "  ") (u "MILLION")); [now constructor|].
  apply MGroup, MAltR.
  repeat (apply (MCat _ _ _ [_] _); [now constructor|]). now constructor.
Defined.

Lemma cagr_text_of_match m : matches cagr_flags cagr_pattern m -> cagr_text m.
Proof.
  intros H.
  destruct (cagr_match_shape _ H) as (c & n & frac & -> & Hc & Hn & Hfrac).
  exists (c :: n), frac. split; [reflexivity|]. split; [discriminate|].
  split; [simpl; now rewrite Hc|].
  destruct Hfrac as [->|(c2 & n2 & -> & Hc2 & Hn2)]; [now left|right].
  exists (c2 :: n2). split; [reflexivity|]. split; [discriminate|].
  simpl. now rewrite Hc2.
Qed.

Lemma match_of_cagr_text m : cagr_text m -> matches cagr_flags cagr_pattern m.
Proof.
  intros (int & frac & -> & Hne & Hint & Hfrac).
  unfold cagr_pattern. rewrite app_assoc.
  apply MCat; [|now constructor].
  apply MGroup, MCat.
  - destruct int as [|c n]; [congruence|]. simpl in Hint.
    apply andb_true_iff in Hint as [Hc Hn].
    constructor; [now rewrite atom_digit|now apply digits_ok].
  - destruct Hfrac as [->|(ds & -> & Hds & Hall)];
      [apply MOptNone|apply MOptSome].
    apply (MCat _ _ _ [ch "."] ds); [now constructor|].
    destruct ds as [|c n]; [congruence|]. simpl in Hall.
    apply andb_true_iff in Hall as [Hc Hn].
    constructor; [now rewrite atom_digit|now apply digits_ok].
Qed.

(** X4. The CAGR pattern accepts exactly the texts made of a non-empty run
    of digits, optionally a period and another non-empty run of digits, and
    a percent sign: no sign, no thousands separator, no blank before the
    percent sign. *)
Lemma cagr_pattern_texts m :
  matches cagr_flags cagr_pattern m <-> cagr_text m.
Proof. split; [apply cagr_text_of_match|apply match_of_cagr_text]. Qed.

Lemma cagr_pattern_texts_witness : matches cagr_flags cagr_pattern (u "7%").
Proof.
  apply (proj2 (cagr_pattern_texts (u "7%"))).
  exists (u "7"), []. split; [reflexivity|]. split; [discriminate|].
  split; [reflexivity|now left].
Defined.

End PatternFacts.
Import PatternFacts.

(* ================================================================= *)
(** ** The decoder never runs out of fuel *)

Module JsonFacts.

Lemma skip_ws_length s : length (skip_ws s) <= length s.
Proof.
  induction s as [|c s IH]; simpl; [lia|].
  destruct (json_ws c); simpl; lia.
Qed.

Lemma strip_prefix_length p : forall s r,
  strip_prefix p s = Some r -> length r + length p = length s.
Proof.
  induction p as [|x p IH]; intros [|y s] r H; simpl in *;
    try discriminate; try (injection H as <-; simpl; lia).
  destruct (x =? y)%N; [|discriminate]. apply IH in H. lia.
Qed.

Lemma cons_char_some c o str rest :
  cons_char c o = Some (str, rest) -> exists str', o = Some (str', rest).
Proof.
  destruct o as [[str' rest']|]; simpl; [|discriminate].
  intros [= _ <-]. eauto.
Qed.

Lemma scanstring_length s : forall str rest,
  scanstring s = Some (str, rest) -> length rest < length s.
Proof.
  remember (length s) as n eqn:Hn. assert (Hle : length s <= n) by lia.
  clear Hn. revert s Hle.
  induction n as [|n IH]; intros s Hle str rest H.
  - destruct s; [discriminate|simpl in Hle; lia].
  - destruct s as [|c t]; [discriminate|]. simpl in Hle. simpl in H.
    repeat match type of H with
    | context [if ?b then _ else _] => destruct b
    | context [match ?x with _ => _ end] =>
        match x with
        | cons_char _ _ => fail 1
        | scanstring _ => fail 1
        | _ => destruct x; simpl in Hle
        end
    | None = Some _ => discriminate
    | Some _ = Some _ => injection H as _ <-; simpl; lia
    end;
    match type of H with
    | cons_char _ (scanstring ?t') = _ =>
        apply cons_char_some in H as [str' H];
        apply IH in H; simpl in *; lia
    end.
Qed.

Lemma span_digits_length s : length (snd (span_digits s)) <= length s.
Proof.
  induction s as [|c s IH]; simpl; [lia|].
  destruct (is_digit09 c); simpl; [|lia].
  destruct (span_digits s); simpl in *; lia.
Qed.

Lemma int_part_length s d r :
  int_part s = Some (d, r) -> length r < length s.
Proof.
  destruct s as [|c t]; simpl; [discriminate|].
  destruct (c =? 48)%N; [intros [= _ <-]; simpl; lia|].
  destruct (is_digit09 c); [|discriminate].
  pose proof (span_digits_length t) as H.
  destruct (span_digits t); simpl in *. intros [= _ <-]. lia.
Qed.

Lemma frac_part_length s : length (snd (frac_part s)) <= length s.
Proof.
  unfold frac_part. destruct s as [|c t]; [simpl; lia|].
  pose proof (span_digits_length t) as H.
  destruct (c =? 46)%N; [|simpl; lia].
  destruct (span_digits t) as [[|x d] r]; simpl in *; lia.
Qed.

Lemma minus_sign_length s : length (snd (minus_sign s)) <= length s.
Proof.
  destruct s as [|c t]; simpl; [lia|]. destruct (c =? 45)%N; simpl; lia.
Qed.

Lemma exp_sign_length s : length (snd (exp_sign s)) <= length s.
Proof.
  destruct s as [|c t]; simpl; [lia|].
  destruct (c =? 45)%N; [simpl; lia|]. destruct (c =? 43)%N; simpl; lia.
Qed.

Lemma exp_part_length s : length (snd (exp_part s)) <= length s.
Proof.
  unfold exp_part. destruct s as [|c t]; [simpl; lia|].
  destruct ((c =? 101) || (c =? 69))%N; [|simpl; lia].
  pose proof (exp_sign_length t) as H1.
  destruct (exp_sign t) as [neg t1]. simpl in H1.
  pose proof (span_digits_length t1) as H2.
  destruct (span_digits t1) as [[|x d] r]; simpl in *; lia.
Qed.

Lemma match_number_length s v r :
  match_number s = Some (Parsed v r) -> length r < length s.
Proof.
  unfold match_number.
  pose proof (minus_sign_length s) as Hm.
  destruct (minus_sign s) as [neg s0]. simpl in Hm.
  destruct (int_part s0) as [[int s1]|] eqn:Hi; [|discriminate].
  apply int_part_length in Hi.
  pose proof (frac_part_length s1) as Hf.
  destruct (frac_part s1) as [frac s2]. simpl in Hf.
  pose proof (exp_part_length s2) as He.
  destruct (exp_part s2) as [exp s3]. simpl in He.
  destruct frac, exp; try (intros [= _ <-]; lia).
  destruct (int_max_str_digits <? length int)%nat; [discriminate|].
  intros [= _ <-]; lia.
Qed.

Lemma scan_constant_length s v r :
  scan_constant s = Parsed v r -> length r < length s.
Proof.
  unfold scan_constant.
  repeat match goal with
  | |- context [strip_prefix ?p s] =>
      let E := fresh "E" in
      destruct (strip_prefix p s) eqn:E;
      [apply strip_prefix_length in E; simpl in E; intros [= _ <-]; lia|]
  end.
  discriminate.
Qed.

Lemma scan_constant_fuel s : scan_constant s <> Exhausted.
Proof.
  unfold scan_constant.
  repeat match goal with
  | |- context [strip_prefix ?p s] => destruct (strip_prefix p s)
  end; discriminate.
Qed.

Lemma match_number_fuel s : match_number s <> Some Exhausted.
Proof.
  unfold match_number.
  destruct (minus_sign s) as [neg s0].
  destruct (int_part s0) as [[int s1]|]; [|discriminate].
  destruct (frac_part s1) as [frac s2].
  destruct (exp_part s2) as [exp s3].
  destruct frac, exp; try discriminate.
  destruct (int_max_str_digits <? length int)%nat; discriminate.
Qed.

Lemma scan_atom_length s v r :
  scan_atom s = Parsed v r -> length r < length s.
Proof.
  unfold scan_atom.
  repeat match goal with
  | |- context [strip_prefix ?p s] =>
      let E := fresh "E" in
      destruct (strip_prefix p s) eqn:E;
      [apply strip_prefix_length in E; simpl in E; intros [= _ <-]; lia|]
  end.
  destruct (match_number s) as [p|] eqn:En.
  - intros ->. now apply match_number_length in En.
  - apply scan_constant_length.
Qed.

Lemma scan_atom_fuel s : scan_atom s <> Exhausted.
Proof.
  unfold scan_atom.
  repeat match goal with
  | |- context [strip_prefix ?p s] =>
      destruct (strip_prefix p s); [discriminate|]
  end.
  destruct (match_number s) as [p|] eqn:En.
  - intros ->. now apply match_number_fuel in En.
  - apply scan_constant_fuel.
Qed.

Lemma starts_with_length c s r :
  starts_with c s = Some r -> length s = S (length r).
Proof.
  destruct s as [|x s]; simpl; [discriminate|].
  destruct (x =? c)%N; [|discriminate]. now intros [= ->].
Qed.

Lemma elements_sound scan bound : sound_below scan bound ->
  forall fuel s acc, length s < fuel -> length s < bound ->
    elements scan fuel s acc <> Exhausted /\
    forall v r, elements scan fuel s acc = Parsed v r -> length r < length s.
Proof.
  intros Hscan fuel. induction fuel as [|fuel IH]; intros s acc Hf Hb; [lia|].
  simpl. destruct (Hscan s Hb) as [Hne Hlt].
  destruct (scan s) as [v r| |]; [|split; discriminate|congruence].
  specialize (Hlt v r eq_refl). pose proof (skip_ws_length r) as Hr.
  destruct (starts_with 93 (skip_ws r)) as [r'|] eqn:E1.
  - apply starts_with_length in E1.
    split; [discriminate|]. intros ? ? [= _ <-]. lia.
  - destruct (starts_with 44 (skip_ws r)) as [r'|] eqn:E2;
      [|split; discriminate].
    apply starts_with_length in E2. pose proof (skip_ws_length r') as Hr'.
    destruct (IH (skip_ws r') (v :: acc)) as [H1 H2]; [lia|lia|].
    split; [exact H1|]. intros v' r'' H. apply H2 in H. lia.
Qed.

Lemma members_sound scan bound : sound_below scan bound ->
  forall fuel s acc, length s < fuel -> length s < bound ->
    members scan fuel s acc <> Exhausted /\
    forall v r, members scan fuel s acc = Parsed v r -> length r < length s.
Proof.
  intros Hscan fuel. induction fuel as [|fuel IH]; intros s acc Hf Hb; [lia|].
  simpl. destruct (starts_with dquote s) as [t|] eqn:E0; [|split; discriminate].
  apply starts_with_length in E0.
  destruct (scanstring t) as [[key r1]|] eqn:Ek; [|split; discriminate].
  apply scanstring_length in Ek. pose proof (skip_ws_length r1) as Hr1.
  destruct (starts_with 58 (skip_ws r1)) as [r2|] eqn:E1; [|split; discriminate].
  apply starts_with_length in E1. pose proof (skip_ws_length r2) as Hr2.
  destruct (Hscan (skip_ws r2)) as [Hne Hlt]; [lia|].
  destruct (scan (skip_ws r2)) as [v r3| |]; [|split; discriminate|congruence].
  specialize (Hlt v r3 eq_refl). pose proof (skip_ws_length r3) as Hr3.
  destruct (starts_with 125 (skip_ws r3)) as [r4|] eqn:E2.
  - apply starts_with_length in E2.
    split; [discriminate|]. intros ? ? [= _ <-]. lia.
  - destruct (starts_with 44 (skip_ws r3)) as [r4|] eqn:E3;
      [|split; discriminate].
    apply starts_with_length in E3. pose proof (skip_ws_length r4) as Hr4.
    destruct (IH (skip_ws r4) (dict_set acc key v)) as [H1 H2]; [lia|lia|].
    split; [exact H1|]. intros v' r'' H. apply H2 in H. lia.
Qed.

Lemma scan_once_sound fuel : sound_below (scan_once fuel) fuel.
Proof.
  induction fuel as [|fuel IH]; intros s Hs; [lia|].
  simpl. destruct s as [|c t]; [split; discriminate|]. simpl in Hs.
  pose proof (skip_ws_length t) as Ht.
  destruct (c =? dquote)%N.
  { destruct (scanstring t) as [[str r]|] eqn:E; [|split; discriminate].
    apply scanstring_length in E. split; [discriminate|].
    intros ? ? [= _ <-]. simpl; lia. }
  destruct (c =? 123)%N.
  { destruct (starts_with 125 (skip_ws t)) as [r|] eqn:E.
    - apply starts_with_length in E. split; [discriminate|].
      intros ? ? [= _ <-]. simpl; lia.
    - destruct (members_sound _ _ IH fuel (skip_ws t) []) as [H1 H2];
        [lia|lia|].
      split; [exact H1|]. intros v r H. apply H2 in H. simpl; lia. }
  destruct (c =? 91)%N.
  { destruct (starts_with 93 (skip_ws t)) as [r|] eqn:E.
    - apply starts_with_length in E. split; [discriminate|].
      intros ? ? [= _ <-]. simpl; lia.
    - destruct (elements_sound _ _ IH fuel (skip_ws t) []) as [H1 H2];
        [lia|lia|].
      split; [exact H1|]. intros v r H. apply H2 in H. simpl; lia. }
  split; [apply scan_atom_fuel|]. intros v r H.
  apply scan_atom_length in H. simpl in H. exact H.
Qed.

(** The fuel [json_loads] supplies is enough for every input: the decoder
    always comes to a verdict of its own. *)
Theorem scan_once_total (s : pystr) :
  scan_once (S (length s)) (skip_ws s) <> Exhausted.
Proof.
  apply scan_once_sound. pose proof (skip_ws_length s). lia.
Qed.

End JsonFacts.




(* ================================================================= *)
(** ** Properties of the metric extraction *)

Module MetricFacts.

Lemma empty_cell_string s : empty_cell (PStr s) = true <-> s = [].
Proof. destruct s; unfold empty_cell; simpl; split; congruence. Qed.


Lemma regex_fallback_cases title cells :
  regex_fallback title cells =
  if both_empty cells then title_cells title else cells.
Proof.
  destruct cells as [tam cagr]. unfold regex_fallback, both_empty, empty_cell, title_cells.
  simpl fst; simpl snd.
  destruct (negb (truthy tam) && negb (truthy cagr)); reflexivity.
Qed.



(** C2. An answer that is empty or that [json.loads] rejects leaves the
    metrics to the regular expressions over the title alone; the widget
    headline with an empty answer gives "$5 billion" and "8%", and the
    answer "I don't know" behaves as the empty one does. *)
Theorem unparsable_answer_uses_title :
  (forall title raw,
      raw = [] \/ json_loads raw = None ->
      extract_metrics title raw = title_cells title) /\
  extract_metrics widget_title [] = (PStr (u "$5 billion"), PStr (u "8%")) /\
  (forall title,
      extract_metrics title (u "I don't know") = extract_metrics title []).
Proof.
  assert (H : forall title raw, json_loads raw = None ->
                extract_metrics title raw = title_cells title).
  { intros title raw Hraw. unfold extract_metrics, parse_metrics.
    rewrite Hraw. now rewrite regex_fallback_cases. }
  split; [|split].
  - intros title raw [->|Hraw]; apply H; [reflexivity|assumption].
  - vm_compute. reflexivity.
  - intros title. now rewrite !H by reflexivity.
Qed.

Lemma unparsable_answer_uses_title_witness :
  extract_metrics widget_title (u "I don't know") =
    (PStr (u "$5 billion"), PStr (u "8%")).
Proof.
  rewrite (proj1 unparsable_answer_uses_title widget_title (u "I don't know")).
  - vm_compute. reflexivity.
  - right. vm_compute. reflexivity.
Defined.

(** An answer that parses, but not as an object, is treated alike. *)
Lemma non_object_answer_uses_title title raw v :
  json_loads raw = Some v -> (forall d, v <> PDict d) ->
  extract_metrics title raw = title_cells title.
Proof.
  intros Hraw Hv. unfold extract_metrics, parse_metrics. rewrite Hraw.
  destruct v; try (now rewrite regex_fallback_cases).
  now destruct (Hv d).
Qed.

(** C6. When the title contains a match of the TAM pattern (the texts
    described by [tam_text], see [tam_pattern_texts]), the TAM returned is
    the first match, word for word: a substring of the title that matches
    the pattern and that no other match precedes. A match that nothing
    precedes is therefore returned exactly. *)
Theorem tam_is_first_match (title pre m post : pystr) :
  occurrence tam_flags tam_pattern title pre m post ->
  (exists pre0 post0,
      occurrence tam_flags tam_pattern title pre0
                 (fst (regex_metrics_from_title title)) post0 /\
      none_before tam_flags tam_pattern title (length pre0)) /\
  (none_before tam_flags tam_pattern title (length pre) ->
      fst (regex_metrics_from_title title) = m).
Proof.
  intros Hocc. split.
  - destruct (found_first _ _ tam_forced _ _ _ _ Hocc)
      as (pre0 & m0 & post0 & Ho & Hleft & _ & E).
    exists pre0, post0. simpl fst. unfold found in E. rewrite E. auto.
  - intros Hleft. exact (found_leftmost _ _ tam_forced _ _ _ _ Hocc Hleft).
Qed.

Lemma matches_tam_example :
  matches tam_flags tam_pattern (u "$1.2 billion").
Proof.
  unfold tam_pattern.
  apply (MCat _ _ _ (u "$") (u "1.2 billion")); [apply MOptSome; now constructor|].
  apply (MCat _ _ _ (u "1.2") (u " billion")); [now constructor|].
  apply (MCat _ _ _ (u " ") (u "billion")); [now constructor|].
  apply MGroup, MAltL.
  repeat (apply (MCat _ _ _ [_] _); [now constructor|]). now constructor.
Qed.

Lemma tam_is_first_match_witness :
  fst (regex_metrics_from_title (u "Cloud market worth $1.2 billion in 2024"))
  = u "$1.2 billion".
Proof.
  refine (proj2 (tam_is_first_match
            (u "Cloud market worth $1.2 billion in 2024")
            (u "Cloud market worth ") (u "$1.2 billion") (u " in 2024") _) _).
  - split; [reflexivity|exact matches_tam_example].
  - apply (search_none_before _ _ tam_forced _ 19 31). vm_compute. reflexivity.
Defined.

(** C7. When the title contains a match of the CAGR pattern, a decimal
    number immediately followed by a percent sign (the texts described by
    [cagr_text], see [cagr_pattern_texts]), the CAGR returned is the first
    match, word for word: a substring of the title that matches the pattern
    and that no other match precedes. A match that nothing precedes is
    therefore returned exactly. *)
Theorem cagr_is_first_match (title pre m post : pystr) :
  occurrence cagr_flags cagr_pattern title pre m post ->
  (exists pre0 post0,
      occurrence cagr_flags cagr_pattern title pre0
                 (snd (regex_metrics_from_title title)) post0 /\
      none_before cagr_flags cagr_pattern title (length pre0)) /\
  (none_before cagr_flags cagr_pattern title (length pre) ->
      snd (regex_metrics_from_title title) = m).
Proof.
  intros Hocc. split.
  - destruct (found_first _ _ cagr_forced _ _ _ _ Hocc)
      as (pre0 & m0 & post0 & Ho & Hleft & _ & E).
    exists pre0, post0. simpl snd. unfold found in E. rewrite E. auto.
  - intros Hleft. exact (found_leftmost _ _ cagr_forced _ _ _ _ Hocc Hleft).
Qed.

Lemma matches_cagr_example :
  matches cagr_flags cagr_pattern (u "12.5%").
Proof.
  unfold cagr_pattern.
  apply (MCat _ _ _ (u "12.5") (u "%")); [|now constructor].
  apply MGroup.
  apply (MCat _ _ _ (u "12") (u ".5")); [now constructor|].
  apply MOptSome.
  apply (MCat _ _ _ (u ".") (u "5")); now constructor.
Qed.

Lemma cagr_is_first_match_witness :
  snd (regex_metrics_from_title (u "Sector to grow 12.5% a year until 2030"))
  = u "12.5%".
Proof.
  refine (proj2 (cagr_is_first_match
            (u "Sector to grow 12.5% a year until 2030")
            (u "Sector to grow ") (u "12.5%") (u " a year until 2030") _) _).
  - split; [reflexivity|exact matches_cagr_example].
  - apply (search_none_before _ _ cagr_forced _ 15 20). vm_compute. reflexivity.
Defined.

(** C10. A title without a single digit can still give a TAM: the number
    part of the pattern accepts a lone period or comma, so in
    "Sales reach . million" the text ". million" is returned. A non-empty
    TAM does not imply that the title holds a number. *)
Theorem tam_needs_no_digit :
  existsb isdecimal (u "Sales reach . million") = false /\
  fst (regex_metrics_from_title (u "Sales reach . million")) = u ". million" /\
  atom_ok tam_flags tam_number (ch ".") = true /\
  atom_ok tam_flags tam_number (ch ",") = true /\
  exists title,
    existsb isdecimal title = false /\
    fst (regex_metrics_from_title title) <> [].
Proof.
  repeat (split; [vm_compute; reflexivity|]).
  exists (u "Sales reach . million").
  split; [vm_compute; reflexivity|]. vm_compute. discriminate.
Qed.

End MetricFacts.

(* ================================================================= *)
(** ** Properties of the calls to the outside world *)

Module GatewayFacts.
Import MetricFacts.

(** *** What each tier of [call_ai] produces *)

(** C4. [call_ai] never raises, whatever either service does: it returns
    the text of the first tier that produces some, and the empty string when
    neither does. An exception at any step of a tier only makes that tier
    produce nothing. *)
Theorem call_ai_never_raises (w : World) (prompt : pystr) :
  call_ai w prompt =
    Ok (match tier1 w prompt with
        | Some t => t
        | None =>
            match tier2 w prompt with
            | Some t => t
            | None => []
            end
        end) /\
  ~ raises (call_ai w prompt).
Proof.
  assert (H : call_ai w prompt =
    Ok (match tier1 w prompt with
        | Some t => t
        | None => match tier2 w prompt with Some t => t | None => [] end
        end)).
  { unfold call_ai, tier1, tier2, generated_text, some_text.
    assert (H2 :
      ((if nonempty (openai_api_key w)
        then try_except (oa <~ chat_completion w prompt ;;
                         resp <~ first_content oa ;;
                         if nonempty resp then Return resp else Next)
        else Next) ;;; Ok []) =
      Ok (match
            (if nonempty (openai_api_key w)
             then match chat_completion w prompt with
                  | Ok (Some content :: _) =>
                      if nonempty (strip content) then Some (strip content)
                      else None
                  | _ => None
                  end
             else None)
          with Some t => t | None => [] end)).
    { destruct (nonempty (openai_api_key w)); [|reflexivity].
      destruct (chat_completion w prompt) as [[|[content|] choices]|e];
        simpl; try reflexivity.
      destruct (nonempty (strip content)); reflexivity. }
    destruct (hf_available w); [|exact H2].
    destruct (hf_api w) as [api|]; [|exact H2].
    destruct (api prompt) as [res|e]; [|exact H2].
    simpl eval. destruct (hf_json res) as [payload|e]; [|exact H2].
    destruct payload; try exact H2.
    simpl eval. destruct (dict_get d (u "generated_text") (PStr [])) as [| | | |s| |];
      try exact H2.
    simpl eval. destruct (nonempty (strip s)); [reflexivity|exact H2]. }
  split; [exact H|]. rewrite H. simpl. auto.
Qed.

Lemma call_ai_never_raises_witness :
  call_ai (generating one_item (u "  about $3 billion ")) (u "How large?")
  = Ok (u "about $3 billion").
Proof.
  rewrite (proj1 (call_ai_never_raises
                    (generating one_item (u "  about $3 billion "))
                    (u "How large?"))).
  vm_compute. reflexivity.
Defined.

(** *** [extract_text] *)

Lemma nonempty_false (s : pystr) : s = [] -> nonempty s = false.
Proof. now intros ->. Qed.

(** Whenever the primary path yields nothing, the function is its secondary
    path, whose request is not guarded. *)
Lemma extract_text_secondary w url :
  primary_yields_nothing w url ->
  extract_text w url =
    (r <- requests_get w url ;; Ok (join (u " ") (html_paragraphs r))).
Proof.
  unfold primary_yields_nothing, extract_text.
  destruct (Article w) as [art|]; [|reflexivity].
  destruct (art url) as [text|e]; [|reflexivity].
  intros H. simpl. now rewrite (nonempty_false _ H).
Qed.

(** What does hold: failures of the primary path are swallowed, and when
    the secondary request succeeds the function returns, with the empty
    string if no paragraph is found. *)
Lemma extract_text_returns w url r :
  requests_get w url = Ok r ->
  exists text, extract_text w url = Ok text /\
    (primary_yields_nothing w url -> html_paragraphs r = [] -> text = []).
Proof.
  intros Hr. unfold extract_text, primary_yields_nothing.
  destruct (Article w) as [art|].
  - destruct (art url) as [text|e]; simpl.
    + destruct (nonempty (strip text)) eqn:Hn; simpl.
      * exists text. split; [reflexivity|]. intros E. rewrite E in Hn. discriminate.
      * rewrite Hr; simpl. eexists; split; [reflexivity|]. now intros _ ->.
    + rewrite Hr; simpl. eexists; split; [reflexivity|]. now intros _ ->.
  - simpl. rewrite Hr; simpl. eexists; split; [reflexivity|]. now intros _ ->.
Qed.

(** The secondary request raising makes the whole function raise. *)
Lemma extract_text_propagates w url e :
  primary_yields_nothing w url -> requests_get w url = Raise e ->
  extract_text w url = Raise e.
Proof. intros Hp He. rewrite extract_text_secondary by assumption. now rewrite He. Qed.

(** C3 (not met by the code). For the empty link, which [fetch_news]
    produces for an item without a link, both paths fail and the error of
    the second request comes out of [extract_text] instead of an empty
    snippet. *)
Theorem extract_text_raises_without_link :
  extract_text silent [] = Raise MissingSchema /\
  link (headline_of (item (Some (u "C")) None)) = [].
Proof. split; reflexivity. Qed.

(** *** [fetch_news] *)

Lemma raise_for_status_ok r :
  ~ (400 <= status_code r < 600)%Z -> raise_for_status r = Ok tt.
Proof.
  intros H. unfold raise_for_status.
  destruct (400 <=? status_code r)%Z eqn:H1;
    destruct (status_code r <? 600)%Z eqn:H2; try reflexivity.
  apply Z.leb_le in H1. apply Z.ltb_lt in H2. lia.
Qed.

Lemma raise_for_status_error r :
  (400 <= status_code r < 600)%Z -> raise_for_status r = Raise HTTPError.
Proof.
  intros [H1 H2]. unfold raise_for_status.
  apply Z.leb_le in H1. apply Z.ltb_lt in H2. now rewrite H1, H2.
Qed.

(** The slice keeps a prefix; for a negative bound Python counts from the
    end, so [max_results] is a maximum only when it is not negative. *)
Lemma slice_to_nonneg {A} (l : list A) (n : Z) :
  (0 <= n)%Z -> slice_to l n = firstn (Z.to_nat n) l.
Proof. intros H. unfold slice_to. apply Z.leb_le in H. now rewrite H. Qed.

Example slice_to_negative : slice_to [1; 2; 3] (-1) = [1; 2].
Proof. reflexivity. Qed.

(** C8. When the feed answers with a success status, [fetch_news] returns
    the first [max_results] items in feed order, all of them when there are
    fewer (exactly 5 of 8 for [max_results = 5]), and a missing title or
    link is the empty string. *)
Theorem fetch_news_returns_first_rows
    (w : World) (topic q : pystr) (max_results : Z) (r : Response) :
  quote (topic ++ u " market size") = Ok q ->
  requests_get w (rss_url q) = Ok r ->
  ~ (400 <= status_code r < 600)%Z ->
  (0 <= max_results)%Z ->
  exists rows,
    fetch_news w topic max_results = Ok rows /\
    rows = map headline_of (firstn (Z.to_nat max_results) (feed_items r)) /\
    length rows = Nat.min (Z.to_nat max_results) (length (feed_items r)) /\
    (Z.of_nat (length rows) <= max_results)%Z /\
    (max_results = 5%Z -> length (feed_items r) = 8 -> length rows = 5) /\
    (forall i it, nth_error (feed_items r) i = Some it ->
                  i < Z.to_nat max_results ->
       exists row, nth_error rows i = Some row /\
         title row = match item_title it with Some t => t | None => [] end /\
         link row = match item_link it with Some l => l | None => [] end).
Proof.
  intros Hq Hr Hs Hn. eexists. split.
  - unfold fetch_news. rewrite Hq; simpl. rewrite Hr; simpl.
    rewrite (raise_for_status_ok _ Hs); simpl.
    rewrite (slice_to_nonneg _ _ Hn). reflexivity.
  - assert (Hlen : length (map headline_of
                     (firstn (Z.to_nat max_results) (feed_items r)))
                   = Nat.min (Z.to_nat max_results) (length (feed_items r))).
    { now rewrite length_map, length_firstn. }
    split; [reflexivity|]. split; [exact Hlen|]. split; [lia|]. split.
    + intros -> H8. rewrite Hlen, H8. reflexivity.
    + intros i it Hi Hlt. exists (headline_of it). split; [|split; reflexivity].
      rewrite nth_error_map, nth_error_firstn.
      apply Nat.ltb_lt in Hlt. now rewrite Hlt, Hi.
Qed.

Lemma fetch_news_returns_first_rows_witness :
  exists rows,
    fetch_news (answering eight_items) (u "Smartphones") 5 = Ok rows /\
    rows = [ {| title := u "A"; link := u "http://a" |};
             {| title := []; link := u "http://b" |};
             {| title := u "C"; link := [] |};
             {| title := u "D"; link := u "http://d" |};
             {| title := []; link := [] |} ].
Proof.
  destruct (fetch_news_returns_first_rows (answering eight_items)
              (u "Smartphones") (u "Smartphones%20market%20size") 5 eight_items)
    as (rows & Hrows & E & _).
  - vm_compute. reflexivity.
  - reflexivity.
  - simpl. lia.
  - lia.
  - exists rows. split; [exact Hrows|]. rewrite E. reflexivity.
Defined.

(** C9, as the code has it. Once the query is encoded, [fetch_news] raises
    exactly when the feed request fails, that is when the request itself
    raises or the response carries an error status (400 to 599), and the
    error is the one the request gave; otherwise it returns the rows. *)
Theorem fetch_news_raises_iff_request_fails
    (w : World) (topic q : pystr) (max_results : Z) :
  quote (topic ++ u " market size") = Ok q ->
  (raises (fetch_news w topic max_results) <->
   request_failed (requests_get w (rss_url q))) /\
  (forall e, requests_get w (rss_url q) = Raise e ->
             fetch_news w topic max_results = Raise e) /\
  (forall r, requests_get w (rss_url q) = Ok r ->
             (400 <= status_code r < 600)%Z ->
             fetch_news w topic max_results = Raise HTTPError).
Proof.
  intros Hq. unfold fetch_news. rewrite Hq; simpl.
  destruct (requests_get w (rss_url q)) as [r|e]; simpl.
  - split; [|split].
    + destruct (Z_le_dec 400 (status_code r)) as [H1|H1];
        [destruct (Z_lt_dec (status_code r) 600) as [H2|H2]|].
      * rewrite raise_for_status_error by lia. simpl. intuition lia.
      * rewrite raise_for_status_ok by lia. simpl. intuition lia.
      * rewrite raise_for_status_ok by lia. simpl. intuition lia.
    + discriminate.
    + intros r' [= <-] H. now rewrite raise_for_status_error.
  - split; [|split].
    + simpl. tauto.
    + now intros e' [= <-].
    + discriminate.
Qed.

Lemma fetch_news_raises_iff_request_fails_witness :
  raises (fetch_news silent (u "Smartphones") 5).
Proof.
  apply (proj1 (fetch_news_raises_iff_request_fails silent (u "Smartphones")
                  (u "Smartphones%20market%20size") 5 eq_refl)).
  exact I.
Defined.

(** C9, as stated, fails twice. With no connection the request raises
    before any HTTP status exists; and a run whose feed request succeeded
    with status 200 still dies later, here of the [TypeError] that joining a
    numeric TAM raises. *)
Lemma feed_failure_is_not_the_only_fatal_error :
  (raises (fetch_news silent (u "Smartphones") 5) /\
   ~ status_indicates_failure
       (requests_get silent (rss_url (u "Smartphones%20market%20size")))) /\
  (let w := generating one_item (u "{" ++ quoted (u "TAM") ++ u ": 5}") in
   fetch_news w (u "Smartphones") 5 =
     Ok [ {| title := u "Phone market booms"; link := u "http://a" |} ] /\
   analyze w (u "Smartphones") = Raise TypeError).
Proof.
  split; [split|split].
  - exact I.
  - intros H. exact H.
  - reflexivity.
  - vm_compute. reflexivity.
Qed.

(** The unguarded request of [extract_text] is fatal to a run as well. *)
Example dead_link_is_fatal :
  fetch_news (dead_links one_item) (u "Smartphones") 5 =
    Ok [ {| title := u "Phone market booms"; link := u "http://a" |} ] /\
  analyze (dead_links one_item) (u "Smartphones") = Raise ConnectionError.
Proof. split; vm_compute; reflexivity. Qed.

(** A run in which nothing but the feed answers ends with the template. *)
Example quiet_run :
  analyze (answering one_item) (u "Smartphones") =
    Ok (Done [ (u "Phone market booms", (PStr [], PStr [])) ]
             no_metrics_template).
Proof. vm_compute. reflexivity. Qed.

End GatewayFacts.

(* ================================================================= *)
(** ** Properties of the advice *)

Module AdviceFacts.
Import MetricFacts GatewayFacts.

Lemma filter_truthy_strings (l : list pystr) :
  filter truthy (map PStr l) = map PStr (filter nonempty l).
Proof.
  induction l as [|x l IH]; [reflexivity|]. simpl.
  destruct (nonempty x); simpl; now rewrite IH.
Qed.

Lemma strings_of_strings (l : list pystr) : strings_of (map PStr l) = Ok l.
Proof. induction l as [|x l IH]; [reflexivity|]. simpl. now rewrite IH. Qed.

Lemma join_cells_strings (l : list pystr) :
  join_cells (u ", ") (map PStr (filter nonempty l)) = Ok (joined l).
Proof. unfold join_cells. now rewrite strings_of_strings. Qed.

Lemma fst_string_cells ms : map fst (string_cells ms) = map PStr (map fst ms).
Proof. unfold string_cells. rewrite !map_map. reflexivity. Qed.

Lemma snd_string_cells ms : map snd (string_cells ms) = map PStr (map snd ms).
Proof. unfold string_cells. rewrite !map_map. reflexivity. Qed.






(** The exact template of a run without metrics. *)
Example no_metrics_advice :
  advise silent (u "Smartphones") [(u "Phone market booms", [])]
         (string_cells [([], [])])
  = Ok (u "We couldn't extract clear market metrics. Consider researching industry reports or public data to determine TAM and CAGR, then revisit this tool for insights.").
Proof. vm_compute. reflexivity. Qed.

End AdviceFacts.

(* ================================================================= *)
(** ** Further properties of the title patterns *)

Module TitleFacts.

Lemma tam_match_nonempty m : matches tam_flags tam_pattern m -> m <> [].
Proof.
  intros H. destruct (tam_match_shape _ H)
    as (dollar & c & n & blanks & unit & w & -> & _).
  destruct dollar; discriminate.
Qed.

Lemma cagr_match_nonempty m : matches cagr_flags cagr_pattern m -> m <> [].
Proof.
  intros H. destruct (cagr_match_shape _ H) as (c & n & frac & -> & _).
  discriminate.
Qed.

Section Found.
Variable fl : flags.
Variable r : regex.
Hypothesis Hforced : forced fl r.
Hypothesis Hnonempty : forall m, matches fl r m -> m <> [].

(** The result of a search is empty, or an occurrence of the pattern. *)
Lemma found_cases title :
  (found fl r title = [] /\ no_occurrence fl r title) \/
  (exists pre post, occurrence fl r title pre (found fl r title) post).
Proof.
  unfold found, search.
  destruct (search_from fl r title 0) as [[a b]|] eqn:Hs.
  - right.
    apply (search_from_some fl r Hforced) in Hs
      as (pre & m & post & Ho & _ & -> & ->).
    exists pre, post. destruct Ho as [E Hm]. subst title.
    change (0 + length pre) with (length pre).
    rewrite (group0_occurrence pre m post). now split.
  - left. split; [reflexivity|].
    exact (search_from_none fl r Hforced _ _ Hs).
Qed.

Lemma found_empty_iff title :
  found fl r title = [] <-> no_occurrence fl r title.
Proof.
  split.
  - intros E. destruct (found_cases title) as [[_ H]|(pre & post & _ & Hm)];
      [exact H|].
    rewrite E in Hm. now apply Hnonempty in Hm.
  - intros Hno. destruct (found_cases title) as [[E _]|(pre & post & Ho)];
      [exact E|]. now apply Hno in Ho.
Qed.

End Found.

(** X1. The TAM returned is empty exactly when the title holds no match of
    the TAM pattern, and the CAGR returned is empty exactly when the title
    holds no match of the CAGR pattern; each is decided by its own pattern
    alone. *)
Theorem metric_is_empty_iff_title_has_no_match (title : pystr) :
  (fst (regex_metrics_from_title title) = [] <->
   no_occurrence tam_flags tam_pattern title) /\
  (snd (regex_metrics_from_title title) = [] <->
   no_occurrence cagr_flags cagr_pattern title).
Proof.
  split.
  - exact (found_empty_iff _ _ tam_forced tam_match_nonempty title).
  - exact (found_empty_iff _ _ cagr_forced cagr_match_nonempty title).
Qed.

Lemma metric_is_empty_iff_title_has_no_match_witness :
  no_occurrence cagr_flags cagr_pattern (u "Phone market booms in 2024").
Proof.
  apply (proj1 (proj2 (metric_is_empty_iff_title_has_no_match
                         (u "Phone market booms in 2024")))).
  vm_compute. reflexivity.
Defined.

(** X2. Both results are taken from the title as they stand there: each
    is a substring of the title, and a non-empty TAM has the form of the
    TAM pattern, a non-empty CAGR the form of the CAGR pattern. *)
Theorem metrics_are_substrings_of_title (title : pystr) :
  substring_of (fst (regex_metrics_from_title title)) title /\
  substring_of (snd (regex_metrics_from_title title)) title /\
  (fst (regex_metrics_from_title title) <> [] ->
     tam_text (fst (regex_metrics_from_title title))) /\
  (snd (regex_metrics_from_title title) <> [] ->
     cagr_text (snd (regex_metrics_from_title title))).
Proof.
  change (fst (regex_metrics_from_title title))
    with (found tam_flags tam_pattern title).
  change (snd (regex_metrics_from_title title))
    with (found cagr_flags cagr_pattern title).
  destruct (found_cases _ _ tam_forced title) as [[Et _]|(p1 & q1 & Ht & Mt)];
    destruct (found_cases _ _ cagr_forced title)
      as [[Ec _]|(p2 & q2 & Hc & Mc)];
    repeat split;
    try (rewrite Et; now exists [], title);
    try (rewrite Ec; now exists [], title);
    try (now exists p1, q1); try (now exists p2, q2);
    try congruence;
    intros _; try (now apply tam_text_of_match);
    try (now apply cagr_text_of_match).
Qed.

Lemma metrics_are_substrings_of_title_witness :
  tam_text (u "$5 billion") /\ cagr_text (u "8%").
Proof.
  pose proof (metrics_are_substrings_of_title widget_title)
    as (_ & _ & Ht & Hc).
  split; [apply Ht|apply Hc]; vm_compute; discriminate.
Defined.

End TitleFacts.

(* ================================================================= *)
(** ** Further properties of the calls to the outside world *)

Module WorldFacts.
Import MetricFacts GatewayFacts.

(** *** Stripping *)

Lemma lstrip_clean s : starts_clean (lstrip s).
Proof.
  induction s as [|c s IH]; simpl; [exact I|].
  destruct (isspace c) eqn:E; [exact IH|exact E].
Qed.

Lemma lstrip_suffix s : exists ws, s = ws ++ lstrip s.
Proof.
  induction s as [|c s [ws IH]]; simpl; [now exists []|].
  destruct (isspace c); [|now exists []].
  exists (c :: ws). simpl. now rewrite <- IH.
Qed.

Lemma rstrip_prefix s : exists ws, s = rstrip s ++ ws.
Proof.
  unfold rstrip. destruct (lstrip_suffix (rev s)) as [ws E].
  exists (rev ws). rewrite <- rev_app_distr, <- E. now rewrite rev_involutive.
Qed.

Lemma rstrip_keeps_start s : starts_clean s -> starts_clean (rstrip s).
Proof.
  intros H. destruct (rstrip_prefix s) as [ws E].
  destruct (rstrip s) as [|c t]; [exact I|].
  rewrite E in H. exact H.
Qed.

Lemma strip_trimmed s : trimmed (strip s).
Proof.
  unfold trimmed, strip. split.
  - apply rstrip_keeps_start, lstrip_clean.
  - unfold rstrip. rewrite rev_involutive. apply lstrip_clean.
Qed.

(** *** [call_ai] *)

(** Every answer is the empty string or a stripped, non-empty text. *)
Lemma call_ai_cases w prompt :
  call_ai w prompt = Ok [] \/
  exists s, call_ai w prompt = Ok (strip s) /\ strip s <> [].
Proof.
  assert (Hne : forall s, nonempty (strip s) = true -> strip s <> []).
  { intros s H E. rewrite E in H. discriminate. }
  assert (H2 :
    ((if nonempty (openai_api_key w)
      then try_except (oa <~ chat_completion w prompt ;;
                       resp <~ first_content oa ;;
                       if nonempty resp then Return resp else Next)
      else Next) ;;; Ok []) = Ok [] \/
    exists s,
      ((if nonempty (openai_api_key w)
        then try_except (oa <~ chat_completion w prompt ;;
                         resp <~ first_content oa ;;
                         if nonempty resp then Return resp else Next)
        else Next) ;;; Ok []) = Ok (strip s) /\ strip s <> []).
  { destruct (nonempty (openai_api_key w)); [|now left].
    destruct (chat_completion w prompt) as [[|[content|] choices]|e];
      simpl; try (now left).
    destruct (nonempty (strip content)) eqn:E; [right|now left].
    exists content. split; [reflexivity|now apply Hne]. }
  unfold call_ai.
  destruct (hf_available w); [|exact H2].
  destruct (hf_api w) as [api|]; [|exact H2].
  destruct (api prompt) as [res|e]; [|exact H2].
  simpl eval. destruct (hf_json res) as [payload|e]; [|exact H2].
  destruct payload; try exact H2.
  simpl eval.
  destruct (dict_get d (u "generated_text") (PStr [])) as [| | | |s| |];
    try exact H2.
  simpl eval. destruct (nonempty (strip s)) eqn:E; [|exact H2].
  right. exists s. split; [reflexivity|now apply Hne].
Qed.

Lemma call_ai_ok w prompt : exists s, call_ai w prompt = Ok s.
Proof.
  destruct (call_ai_cases w prompt) as [H|(s & H & _)]; eauto.
Qed.

(** X5. Whatever the services answer, the text [call_ai] returns has no
    white space at either end; an answer made of white space only comes
    back as the empty string. *)
Theorem call_ai_answer_is_trimmed (w : World) (prompt : pystr) :
  exists s, call_ai w prompt = Ok s /\ trimmed s.
Proof.
  destruct (call_ai_cases w prompt) as [H|(s & H & _)].
  - exists []. split; [exact H|]. split; exact I.
  - exists (strip s). split; [exact H|apply strip_trimmed].
Qed.


(** *** [extract_text] *)

(** X6. When the article extractor gives text that is not blank,
    [extract_text] returns that text as it is, white space at the ends
    included, and the page is not requested a second time: the result does
    not depend on what [requests.get] would do. *)
Theorem extract_text_prefers_article
    (w : World) (art : pystr -> result pystr) (url text : pystr) :
  Article w = Some art -> art url = Ok text -> strip text <> [] ->
  extract_text w url = Ok text.
Proof.
  intros Ha Ht Hs. unfold extract_text. rewrite Ha, Ht. simpl.
  destruct (strip text); [congruence|reflexivity].
Qed.

Lemma extract_text_prefers_article_witness :
  extract_text
    {| requests_get := fun _ => Raise ConnectionError;
       Article := Some (fun _ => Ok (u "  Phones sell. "));
       hf_available := false; hf_api := None; openai_api_key := [];
       chat_completion := fun _ => Raise ServiceError |}
    (u "http://a")
  = Ok (u "  Phones sell. ").
Proof.
  apply (extract_text_prefers_article _ (fun _ => Ok (u "  Phones sell. "))).
  - reflexivity.
  - reflexivity.
  - vm_compute. discriminate.
Defined.

(** X7. When the article extractor yields nothing and the page request
    returns, [extract_text] returns the texts of the paragraphs joined by
    single spaces, whatever the HTTP status of the response: an error page
    is scraped like any other. *)
Theorem extract_text_scrapes_any_status
    (w : World) (url : pystr) (r : Response) :
  primary_yields_nothing w url -> requests_get w url = Ok r ->
  extract_text w url = Ok (join (u " ") (html_paragraphs r)).
Proof.
  intros Hp Hr. rewrite (extract_text_secondary w url Hp). now rewrite Hr.
Qed.

Lemma extract_text_scrapes_any_status_witness :
  extract_text
    (answering {| status_code := 404; feed_items := [];
                  html_paragraphs := [u "Not"; u "found"] |})
    (u "http://a")
  = Ok (u "Not found").
Proof.
  rewrite (extract_text_scrapes_any_status
             (answering {| status_code := 404; feed_items := [];
                           html_paragraphs := [u "Not"; u "found"] |})
             (u "http://a")
             {| status_code := 404; feed_items := [];
                html_paragraphs := [u "Not"; u "found"] |}).
  - vm_compute. reflexivity.
  - exact I.
  - reflexivity.
Defined.

(** *** Sequencing *)

Lemma mapM_app {A B} (f : A -> result B) (a b : list A) :
  mapM f (a ++ b) = (xs <- mapM f a ;; ys <- mapM f b ;; Ok (xs ++ ys)).
Proof.
  induction a as [|x a IH]; simpl.
  - destruct (mapM f b); reflexivity.
  - destruct (f x); simpl; [|reflexivity]. rewrite IH.
    destruct (mapM f a); simpl; [|reflexivity].
    destruct (mapM f b); reflexivity.
Qed.

Lemma mapM_ok {A B} (f : A -> result B) (l : list A) (l' : list B) :
  mapM f l = Ok l' -> Forall2 (fun a b => f a = Ok b) l l'.
Proof.
  revert l'; induction l as [|x l IH]; simpl; intros l' H.
  - injection H as <-. constructor.
  - destruct (f x) as [y|] eqn:Ex; simpl in H; [|discriminate].
    destruct (mapM f l) as [ys|]; simpl in H; [|discriminate].
    injection H as <-. constructor; auto.
Qed.

Lemma mapM_raises {A B} (f : A -> result B) (l : list A) :
  raises (mapM f l) <-> exists a, In a l /\ raises (f a).
Proof.
  induction l as [|x l IH]; simpl.
  - split; [tauto|]. intros (a & [] & _).
  - destruct (f x) as [y|e] eqn:Ex; simpl.
    + destruct (mapM f l) as [ys|e]; simpl in *.
      * split; [tauto|]. intros (a & [<-|Ha] & Hr).
        -- now rewrite Ex in Hr.
        -- apply IH. eauto.
      * split; [|tauto]. intros _. destruct (proj1 IH I) as (a & Ha & Hr).
        eauto.
    + split; [|tauto]. intros _. exists x. rewrite Ex. simpl. auto.
Qed.


(** *** [urllib.parse.quote] *)

Lemma utf8_raises c : raises (utf8 c) <-> unencodable c = true.
Proof.
  unfold utf8, unencodable.
  destruct (N.ltb_spec c 128); [|destruct (N.ltb_spec c 2048);
    [|destruct (N.ltb_spec c 65536); [|destruct (N.ltb_spec c 1114112)]]];
    destruct (N.leb_spec 55296 c); destruct (N.leb_spec c 57343);
    destruct (N.leb_spec 1114112 c); simpl; split; intros;
    try tauto; try discriminate; try lia.
Qed.

Ltac all_below := repeat (apply Forall_cons; [lia|]); apply Forall_nil.

Lemma utf8_bytes c bs : utf8 c = Ok bs -> Forall (fun b => (b < 256)%N) bs.
Proof.
  unfold utf8.
  destruct (N.ltb_spec c 128).
  { intros E. replace bs with [c] by congruence. all_below. }
  destruct (N.ltb_spec c 2048).
  { intros E.
    replace bs with [192 + c / 64; 128 + c mod 64]%N by congruence.
    pose proof (N.mod_lt c 64). pose proof (N.Div0.div_lt_upper_bound c 64 32).
    all_below. }
  destruct (N.ltb_spec c 65536).
  { destruct ((55296 <=? c) && (c <=? 57343))%N; [discriminate|].
    intros E.
    replace bs with [224 + c / 4096; 128 + (c / 64) mod 64; 128 + c mod 64]%N
      by congruence.
    pose proof (N.mod_lt c 64). pose proof (N.mod_lt (c / 64) 64).
    pose proof (N.Div0.div_lt_upper_bound c 4096 16).
    all_below. }
  destruct (N.ltb_spec c 1114112); [|discriminate].
  intros E.
  replace bs with [240 + c / 262144; 128 + (c / 4096) mod 64;
                   128 + (c / 64) mod 64; 128 + c mod 64]%N by congruence.
  pose proof (N.mod_lt c 64). pose proof (N.mod_lt (c / 64) 64).
  pose proof (N.mod_lt (c / 4096) 64).
  pose proof (N.Div0.div_lt_upper_bound c 262144 5).
  all_below.
Qed.

Lemma upper_hex_safe n : (n < 16)%N -> url_safe (upper_hex n) = true.
Proof.
  intros H. unfold upper_hex, url_safe.
  destruct (N.ltb_spec n 10) as [Hlo|Hhi].
  - assert (E : ((48 <=? 48 + n) && (48 + n <=? 57))%N = true).
    { apply andb_true_iff. split; apply N.leb_le; lia. }
    rewrite E. reflexivity.
  - assert (E : ((65 <=? 55 + n) && (55 + n <=? 90))%N = true).
    { apply andb_true_iff. split; apply N.leb_le; lia. }
    rewrite E, orb_true_r. reflexivity.
Qed.

(** The characters [quote] may write: the unreserved ones, the slash, and
    the percent sign of an escape. *)
Lemma quote_byte_safe b :
  (b < 256)%N ->
  forallb (fun c => url_safe c || (c =? 37)%N) (quote_byte b) = true.
Proof.
  intros Hb. unfold quote_byte. destruct (url_safe b) eqn:E; simpl.
  - now rewrite E.
  - rewrite !upper_hex_safe; [reflexivity| |].
    + apply N.mod_lt. discriminate.
    + apply N.Div0.div_lt_upper_bound. exact Hb.
Qed.

Lemma quote_app a b qa qb :
  quote a = Ok qa -> quote b = Ok qb -> quote (a ++ b) = Ok (qa ++ qb).
Proof.
  unfold quote. rewrite mapM_app.
  destruct (mapM utf8 a) as [xs|]; simpl; [|discriminate].
  destruct (mapM utf8 b) as [ys|]; simpl; [|discriminate].
  intros [= <-] [= <-]. now rewrite concat_app, flat_map_app.
Qed.

(** X8. The query sent to the feed is the encoded topic followed by
    [%20market%20size]: encoding the topic with its fixed suffix is the
    same as encoding the topic and appending the encoded suffix. *)
Theorem query_is_topic_then_suffix (topic qt : pystr) :
  quote topic = Ok qt ->
  quote (topic ++ u " market size") = Ok (qt ++ u "%20market%20size").
Proof. intros H. apply quote_app; [exact H|reflexivity]. Qed.

Lemma query_is_topic_then_suffix_witness :
  quote (u "5G phones" ++ u " market size")
  = Ok (u "5G%20phones" ++ u "%20market%20size").
Proof. apply query_is_topic_then_suffix. reflexivity. Defined.

(** X9. Whatever the topic, the encoded query holds only letters, digits,
    the characters [_ . - ~ /] and the percent sign: no blank, no
    ampersand, no character beyond ASCII reaches the URL. *)
Theorem quote_writes_safe_characters (s q : pystr) :
  quote s = Ok q ->
  forallb (fun c => url_safe c || (c =? 37)%N) q = true.
Proof.
  unfold quote. destruct (mapM utf8 s) as [bytes|] eqn:E; simpl; [|discriminate].
  intros [= <-]. apply mapM_ok in E.
  assert (Hall : Forall (fun b => (b < 256)%N) (concat bytes)).
  { induction E as [|c bs l l' Hc _ IH]; simpl; [constructor|].
    apply Forall_app. split; [now apply (utf8_bytes c)|exact IH]. }
  induction Hall as [|b l Hb _ IH]; simpl; [reflexivity|].
  rewrite forallb_app, IH, quote_byte_safe by exact Hb. reflexivity.
Qed.

Lemma quote_writes_safe_characters_witness :
  forallb (fun c => url_safe c || (c =? 37)%N)
          (u "R%26D%20%C3%A9%20market%20size") = true.
Proof.
  apply (quote_writes_safe_characters (u "R&D " ++ [233%N] ++ u " market size")).
  vm_compute. reflexivity.
Defined.

(** X10. Encoding fails exactly when the text holds a code point UTF-8
    cannot encode: a surrogate, or a number beyond the last code point. *)
Theorem quote_fails_iff_unencodable (s : pystr) :
  raises (quote s) <-> existsb unencodable s = true.
Proof.
  unfold quote. rewrite existsb_exists.
  destruct (mapM utf8 s) as [bytes|e] eqn:E; simpl.
  - split; [tauto|]. intros (c & Hin & Hc).
    assert (Hr : raises (mapM utf8 s)).
    { apply mapM_raises. exists c. split; [exact Hin|now apply utf8_raises]. }
    now rewrite E in Hr.
  - split; [|tauto]. intros _.
    assert (Hr : raises (mapM utf8 s)) by now rewrite E.
    apply mapM_raises in Hr as (c & Hin & Hc).
    exists c. split; [exact Hin|now apply utf8_raises].
Qed.

Lemma quote_fails_iff_unencodable_witness :
  raises (quote (u "5G " ++ [55357%N])).
Proof.
  apply (proj2 (quote_fails_iff_unencodable (u "5G " ++ [55357%N]))).
  reflexivity.
Defined.

(** *** [fetch_news] *)

(** X11. [fetch_news] asks the world one thing only, the response to the
    feed URL of the topic: two worlds that answer that URL alike give the
    same result, whatever else differs between them. *)
Theorem fetch_news_reads_one_url
    (w w' : World) (topic qt : pystr) (max_results : Z) :
  quote topic = Ok qt ->
  requests_get w (rss_url (qt ++ u "%20market%20size")) =
  requests_get w' (rss_url (qt ++ u "%20market%20size")) ->
  fetch_news w topic max_results = fetch_news w' topic max_results.
Proof.
  intros Hq Hr. unfold fetch_news.
  rewrite (quote_app topic (u " market size") qt (u "%20market%20size") Hq eq_refl).
  simpl bind. now rewrite Hr.
Qed.

Lemma fetch_news_reads_one_url_witness :
  fetch_news (answering one_item) (u "Smartphones") 5 =
  fetch_news (dead_links one_item) (u "Smartphones") 5.
Proof.
  apply (fetch_news_reads_one_url _ _ _ (u "Smartphones")); reflexivity.
Defined.

(** X12. A negative [max_results] is not read as "none": the slice then
    drops that many items from the end of the feed and keeps the rest, so
    [max_results = -1] on a feed of eight items returns seven rows. *)
Theorem fetch_news_negative_bound
    (w : World) (topic q : pystr) (max_results : Z) (r : Response) :
  quote (topic ++ u " market size") = Ok q ->
  requests_get w (rss_url q) = Ok r ->
  ~ (400 <= status_code r < 600)%Z ->
  (max_results < 0)%Z ->
  fetch_news w topic max_results =
    Ok (map headline_of
          (firstn (length (feed_items r) - Z.to_nat (- max_results))
                  (feed_items r))).
Proof.
  intros Hq Hr Hs Hn. unfold fetch_news. rewrite Hq; simpl. rewrite Hr; simpl.
  rewrite (raise_for_status_ok _ Hs); simpl. unfold slice_to.
  destruct (Z.leb_spec 0 max_results); [lia|].
  do 3 f_equal. lia.
Qed.

Lemma fetch_news_negative_bound_witness :
  exists rows,
    fetch_news (answering eight_items) (u "Smartphones") (-1) = Ok rows /\
    length rows = 7.
Proof.
  eexists. split.
  - apply (fetch_news_negative_bound (answering eight_items) (u "Smartphones")
             (u "Smartphones%20market%20size") (-1) eight_items).
    + vm_compute. reflexivity.
    + reflexivity.
    + simpl. lia.
    + lia.
  - reflexivity.
Defined.

(** *** Start-up *)

(** X13. On the world the program sets up, the primary client is used
    exactly when its construction succeeded, and the chat completion is
    always configured: when the construction failed, a chat answer with
    non-blank content is what [call_ai] returns, stripped. *)
Theorem startup_tiers (h : Host) :
  (hf_available (startup h) = true <-> exists api, hf_api (startup h) = Some api) /\
  nonempty (openai_api_key (startup h)) = true /\
  (forall e prompt content rest,
      make_inference_api h = Raise e ->
      host_chat h prompt = Ok (Some content :: rest) ->
      strip content <> [] ->
      call_ai (startup h) prompt = Ok (strip content)).
Proof.
  split; [|split].
  - unfold startup; simpl. destruct (make_inference_api h) as [api|e].
    + split; eauto.
    + split; [discriminate|]. intros (api & H). discriminate.
  - reflexivity.
  - intros e prompt content rest He Hc Hs.
    unfold call_ai, startup; simpl. rewrite He, Hc. simpl.
    destruct (strip content); [congruence|reflexivity].
Qed.

Lemma startup_tiers_witness :
  call_ai
    (startup {| import_newspaper := None;
                make_inference_api := Raise ServiceError;
                host_get := fun _ => Raise ConnectionError;
                host_chat := fun _ => Ok [Some (u " Grow. ")] |})
    (u "Advice?")
  = Ok (u "Grow.").
Proof.
  apply (proj2 (proj2 (startup_tiers _)) ServiceError _ (u " Grow. ") []).
  - reflexivity.
  - reflexivity.
  - vm_compute. discriminate.
Defined.

End WorldFacts.

(* ================================================================= *)
(** ** Further properties of the advice and of the whole run *)

Module RunFacts.
Import MetricFacts GatewayFacts AdviceFacts WorldFacts.

(** *** Joining cells *)

Lemma strings_of_raises cells :
  raises (strings_of cells) <->
  existsb (fun v => match v with PStr _ => false | _ => true end) cells = true.
Proof.
  induction cells as [|v cells IH]; simpl; [split; [tauto|discriminate]|].
  destruct v; simpl; try (split; [reflexivity|exact (fun _ => I)]).
  destruct (strings_of cells); simpl in *; exact IH.
Qed.

Lemma strings_of_type_error cells e :
  strings_of cells = Raise e -> e = TypeError.
Proof.
  induction cells as [|v cells IH]; simpl; [discriminate|].
  destruct v; try (now intros [= <-]).
  destruct (strings_of cells); simpl; [discriminate|].
  intros [= <-]. now apply IH.
Qed.

Lemma join_cells_raises sep column :
  raises (join_cells sep (filter truthy column)) <->
  existsb unjoinable column = true.
Proof.
  unfold join_cells.
  assert (H : raises (strings_of (filter truthy column)) <->
              existsb unjoinable column = true).
  { rewrite strings_of_raises. induction column as [|v column IH]; simpl.
    - tauto.
    - unfold unjoinable at 1. destruct (truthy v); simpl; [|exact IH].
      destruct v; simpl; try tauto; exact IH. }
  destruct (strings_of (filter truthy column)); simpl in *; exact H.
Qed.

Lemma join_cells_type_error sep cells e :
  join_cells sep cells = Raise e -> e = TypeError.
Proof.
  unfold join_cells. destruct (strings_of cells) eqn:E; simpl; [discriminate|].
  intros [= <-]. now apply strings_of_type_error in E.
Qed.

Lemma existsb_columns metrics :
  existsb unjoinable_row metrics =
  existsb unjoinable (map fst metrics) || existsb unjoinable (map snd metrics).
Proof.
  induction metrics as [|m metrics IH]; simpl; [reflexivity|].
  rewrite IH. unfold unjoinable_row.
  destruct (unjoinable (fst m)), (unjoinable (snd m)),
    (existsb unjoinable (map fst metrics)),
    (existsb unjoinable (map snd metrics)); reflexivity.
Qed.

Lemma advise_raises w topic rows metrics :
  raises (advise w topic rows metrics) <->
  existsb unjoinable_row metrics = true.
Proof.
  rewrite existsb_columns, orb_true_iff.
  rewrite <- (join_cells_raises (u ", ") (map fst metrics)).
  rewrite <- (join_cells_raises (u ", ") (map snd metrics)).
  unfold advise.
  destruct (join_cells (u ", ") (filter truthy (map fst metrics)))
    as [t|e1]; simpl; [|tauto].
  destruct (join_cells (u ", ") (filter truthy (map snd metrics)))
    as [c|e2]; simpl; [|tauto].
  destruct (call_ai_ok w
              (advice_prompt topic (context_of rows) t c)) as [s Hs].
  rewrite Hs. simpl bind.
  destruct (negb (nonempty s));
    [destruct (filter truthy (map fst metrics)),
              (filter truthy (map snd metrics))|];
    simpl; tauto.
Qed.

Lemma advise_error w topic rows metrics e :
  advise w topic rows metrics = Raise e -> e = TypeError.
Proof.
  unfold advise.
  destruct (join_cells (u ", ") (filter truthy (map fst metrics)))
    as [t|e1] eqn:Et; simpl.
  2:{ intros [= <-]. now apply join_cells_type_error in Et. }
  destruct (join_cells (u ", ") (filter truthy (map snd metrics)))
    as [c|e2] eqn:Ec; simpl.
  2:{ intros [= <-]. now apply join_cells_type_error in Ec. }
  destruct (call_ai_ok w
              (advice_prompt topic (context_of rows) t c)) as [s Hs].
  rewrite Hs. simpl bind.
  destruct (negb (nonempty s));
    [destruct (filter truthy (map fst metrics)),
              (filter truthy (map snd metrics))|];
    simpl; discriminate.
Qed.

(** X14. Step 7 raises exactly when some TAM or CAGR cell is true for
    Python without being a string (a number, [true], a non-empty list or
    object taken from the model's JSON), and the error is then a
    [TypeError]; the answer of the model plays no part in it. *)
Theorem advise_raises_iff_unjoinable_cell
    (w : World) (topic : pystr) (rows : list (pystr * pystr))
    (metrics : list (pyval * pyval)) :
  (raises (advise w topic rows metrics) <->
   existsb unjoinable_row metrics = true) /\
  (forall e, advise w topic rows metrics = Raise e -> e = TypeError).
Proof.
  split; [apply advise_raises|apply advise_error].
Qed.

Lemma advise_raises_iff_unjoinable_cell_witness :
  raises (advise silent (u "Smartphones") [(u "Phone market booms", [])]
                 [(PInt 5, PStr [])]).
Proof.
  apply (proj1 (advise_raises_iff_unjoinable_cell silent (u "Smartphones")
                  [(u "Phone market booms", [])] [(PInt 5, PStr [])])).
  reflexivity.
Defined.

(** X15. With string cells, a non-empty answer of the model is the advice,
    unchanged: the templates are used only when the answer is empty. *)
Theorem advise_returns_model_answer
    (w : World) (topic answer : pystr) (rows ms : list (pystr * pystr)) :
  call_ai w (advice_prompt topic (context_of rows)
                           (joined (map fst ms)) (joined (map snd ms)))
    = Ok answer ->
  answer <> [] ->
  advise w topic rows (string_cells ms) = Ok answer.
Proof.
  intros Hai Hne. unfold advise.
  rewrite fst_string_cells, snd_string_cells.
  rewrite !filter_truthy_strings, !join_cells_strings. simpl bind.
  rewrite Hai. simpl bind.
  destruct answer; [congruence|reflexivity].
Qed.

Lemma advise_returns_model_answer_witness :
  advise (generating one_item (u " Enter the market. ")) (u "Smartphones")
         [(u "Phone market booms", u "Phones sell.")]
         (string_cells [(u "$5 billion", u "8%")])
  = Ok (u "Enter the market.").
Proof.
  apply advise_returns_model_answer.
  - vm_compute. reflexivity.
  - discriminate.
Defined.


(** *** The run *)

(** The columns of steps 2 to 6, computed one column after the other. *)
Lemma columns_are_rows w (df : list Headline) :
  (snippets <- mapM (fun h => t <- extract_text w (link h) ;;
                              Ok (firstn 1000 t)) df ;;
   raws <- mapM (call_ai w)
             (map (fun r => metric_prompt (fst r) (snd r))
                  (combine (map title df) snippets)) ;;
   Ok (snippets,
       map (fun r => extract_metrics (fst r) (snd r))
           (combine (map title df) raws)))
  = (rs <- mapM (analyze_row w) df ;; Ok (map fst rs, map snd rs)).
Proof.
  induction df as [|h df IH]; [reflexivity|].
  cbn [mapM map]. unfold analyze_row at 1, snippet_of.
  destruct (extract_text w (link h)) as [t|e]; [|reflexivity].
  cbn [bind].
  destruct (call_ai_ok w (metric_prompt (title h) (firstn 1000 t))) as [raw Hraw].
  rewrite Hraw. cbn [bind].
  destruct (mapM (fun h0 => t0 <- extract_text w (link h0) ;;
                            Ok (firstn 1000 t0)) df) as [ss|e]; cbn [bind] in *.
  - cbn [combine map mapM fst snd]. rewrite Hraw. cbn [bind].
    destruct (mapM (call_ai w)
                (map (fun r => metric_prompt (fst r) (snd r))
                     (combine (map title df) ss))) as [raws|e]; cbn [bind] in *.
    + destruct (mapM (analyze_row w) df) as [rs|e]; cbn [bind] in *;
        [|discriminate].
      cbn [map fst snd]. injection IH as -> ->. reflexivity.
    + destruct (mapM (analyze_row w) df) as [rs|e']; cbn [bind] in *;
        [discriminate|]. exact IH.
  - destruct (mapM (analyze_row w) df) as [rs|e']; cbn [bind] in *;
      [discriminate|]. exact IH.
Qed.

(** The table and the advice computed column by column, as the program
    does, are those obtained by treating one headline after the other. *)
Lemma analyze_by_rows (w : World) (topic : pystr) :
  analyze w topic =
    (df <- fetch_news w topic 5 ;;
     match df with
     | [] => Ok Stopped
     | _ :: _ => analyze_rows w topic df
     end).
Proof.
  unfold analyze, analyze_rows.
  destruct (fetch_news w topic 5) as [df|e]; [|reflexivity].
  cbn [bind]. destruct df as [|h df]; [reflexivity|].
  remember (h :: df) as df' eqn:Edf. clear Edf.
  generalize (columns_are_rows w df').
  destruct (mapM (fun h0 => t <- extract_text w (link h0) ;;
                            Ok (firstn 1000 t)) df') as [ss|e];
    cbn [bind].
  - destruct (mapM (call_ai w)
                (map (fun r => metric_prompt (fst r) (snd r))
                     (combine (map title df') ss))) as [raws|e];
      cbn [bind].
    + destruct (mapM (analyze_row w) df') as [rs|e]; cbn [bind];
        [|discriminate].
      intros H. injection H as -> ->. reflexivity.
    + destruct (mapM (analyze_row w) df') as [rs|e']; cbn [bind];
        [discriminate|]. now intros [= ->].
  - destruct (mapM (analyze_row w) df') as [rs|e']; cbn [bind];
      [discriminate|]. now intros [= ->].
Qed.











(** X18. A run stops with "No news found" exactly when the feed answers
    without items; it never stops for any other reason. *)
Theorem analyze_stops_iff_feed_is_empty (w : World) (topic : pystr) :
  analyze w topic = Ok Stopped <-> fetch_news w topic 5 = Ok [].
Proof.
  rewrite analyze_by_rows.
  destruct (fetch_news w topic 5) as [df|e]; cbn [bind].
  - destruct df as [|h df]; [tauto|]. split; [|discriminate].
    unfold analyze_rows.
    destruct (mapM (analyze_row w) (h :: df)); cbn [bind]; [|discriminate].
    destruct (advise w topic _ _); cbn [bind]; discriminate.
  - split; discriminate.
Qed.

Lemma analyze_stops_iff_feed_is_empty_witness :
  analyze (answering {| status_code := 200; feed_items := [];
                        html_paragraphs := [] |}) (u "Smartphones")
  = Ok Stopped.
Proof.
  apply (proj2 (analyze_stops_iff_feed_is_empty _ _)).
  vm_compute. reflexivity.
Defined.





(** *** Missing keys *)

Lemma str_eqb_eq a b : str_eqb a b = true <-> a = b.
Proof.
  revert b; induction a as [|x a IH]; intros [|y b]; simpl;
    try (split; [discriminate|discriminate]); [tauto|].
  rewrite andb_true_iff, N.eqb_eq, IH. split.
  - now intros [-> ->].
  - now intros [= -> ->].
Qed.

Lemma dict_get_absent d k default :
  (forall v, ~ In (k, v) d) -> dict_get d k default = default.
Proof.
  induction d as [|[k' v'] d IH]; simpl; [reflexivity|]. intros H.
  destruct (str_eqb k' k) eqn:E.
  - apply str_eqb_eq in E. subst k'. destruct (H v'). now left.
  - apply IH. intros v Hv. apply (H v). now right.
Qed.

(** X21. A key the model's object lacks reads as the empty string: without
    'CAGR' the CAGR cell is empty, without 'TAM' the TAM cell is, and an
    object with neither key leaves both metrics to the title. *)
Theorem missing_key_reads_as_empty
    (title raw : pystr) (d : list (pystr * pyval)) :
  json_loads raw = Some (PDict d) ->
  ((forall v, ~ In (u "TAM", v) d) -> fst (parse_metrics raw) = PStr []) /\
  ((forall v, ~ In (u "CAGR", v) d) -> snd (parse_metrics raw) = PStr []) /\
  ((forall v, ~ In (u "TAM", v) d) -> (forall v, ~ In (u "CAGR", v) d) ->
     extract_metrics title raw = title_cells title).
Proof.
  intros Hd. unfold extract_metrics, parse_metrics. rewrite Hd.
  split; [|split].
  - intros H. cbn [fst]. now apply dict_get_absent.
  - intros H. cbn [snd]. now apply dict_get_absent.
  - intros Ht Hc. rewrite !dict_get_absent by assumption.
    now rewrite regex_fallback_cases.
Qed.

Lemma missing_key_reads_as_empty_witness :
  extract_metrics widget_title
    (u "{" ++ quoted (u "note") ++ u ": null}")
  = (PStr (u "$5 billion"), PStr (u "8%")).
Proof.
  rewrite (proj2 (proj2 (missing_key_reads_as_empty widget_title
             (u "{" ++ quoted (u "note") ++ u ": null}")
             [(u "note", PNone)] eq_refl))).
  - vm_compute. reflexivity.
  - intros v [H|[]]. discriminate.
  - intros v [H|[]]. discriminate.
Defined.

End RunFacts.
